(** * Multi-chain balance aggregation (src/lib/token.ts)

    A shallow embedding of [getBalance], [processTokenBalancesResponse],
    [getAvalancheTokenBalances] and [getTokenBalance], with the pieces of
    ethers v5 and of the JavaScript run time they call, and the properties
    of the balance aggregation proved over it.

    - JavaScript numbers are IEEE 754 binary64 values: [spec_float] with
      [prec = 53] and [emax = 1024].
    - ethers' [BigNumber] is an unbounded integer: [Z].
    - A provider is an oracle: a function from a request to its outcome,
      and to the instant at which that outcome arrives.
    - Asynchronous code runs in a monad that records, in program order, the
      requests issued, the points where the caller waits for them, and what
      is written to the console. *)

From Stdlib Require Import ZArith String Ascii List Lia Bool DecimalString.
From Stdlib Require Import Floats.SpecFloat.
From Stdlib Require DecimalFacts DecimalPos DecimalN.
From stdpp Require Import base list strings.

Open Scope string_scope.
Open Scope list_scope.
Open Scope Z_scope.

(** ** Outcomes: a value, or a thrown [Error] (a rejected promise) *)

Inductive Result (A : Type) : Type :=
| Ok (a : A)
| Throw (message : string).
Arguments Ok {A} a.
Arguments Throw {A} message.

Definition isOk {A} (r : Result A) : bool :=
  match r with Ok _ => true | Throw _ => false end.

(** ** JavaScript numbers *)

Module Js.

Definition number := spec_float.

Definition prec : Z := 53.
Definition emax : Z := 1024.

(** The number nearest to the integer [z] (ties to even). *)
Definition of_Z (z : Z) : number := binary_normalize prec emax z 0 false.

(** The number nearest to [n / d] for [d > 0] (ties to even); the sign of a
    zero is [neg]. *)
Definition of_ratio (neg : bool) (n : N) (d : positive) : number :=
  match n with
  | N0 => S754_zero neg
  | Npos p => SFdiv prec emax (S754_finite neg p 0) (S754_finite false d 0)
  end.

(** A value is either a number or a string: the two types a [balance] field
    holds at run time. *)
Inductive value : Type :=
| Num (x : number)
| Str (s : string).

Definition typeof (v : value) : string :=
  match v with Num _ => "number" | Str _ => "string" end.

(** *** Decimal digits *)

Definition is_digit (c : ascii) : bool :=
  (48 <=? nat_of_ascii c)%nat && (nat_of_ascii c <=? 57)%nat.

Definition digit_value (c : ascii) : N := N.of_nat (nat_of_ascii c - 48).

(** The decimal numeral of a natural number, no leading zeros, ["0"] for 0. *)
Definition numeral (n : N) : list ascii :=
  list_ascii_of_string (NilZero.string_of_uint (N.to_uint n)).

Definition pow10 (k : nat) : positive := Z.to_pos (10 ^ Z.of_nat k).

(** The natural number a digit sequence denotes (0 for the empty one). *)
Definition digits_value (l : list ascii) : N :=
  fold_left (fun acc c => (10 * acc + digit_value c)%N) l 0%N.

Definition zeros (n : nat) : list ascii := repeat "0"%char n.

(** [padStart]: zeros in front until the length is at least [n]. *)
Definition pad_zeros (n : nat) (l : list ascii) : list ascii :=
  zeros (n - length l) ++ l.

Fixpoint span_digits (l : list ascii) : list ascii * list ascii :=
  match l with
  | c :: r =>
      if is_digit c then let (d, rest) := span_digits r in (c :: d, rest)
      else ([], l)
  | [] => ([], [])
  end.

(** *** [parseFloat]

    The longest prefix of the string that is a decimal literal: an optional
    sign, digits, and an optional fraction; [NaN] when there is no digit.
    The value is the number nearest to the literal.  Leading white space,
    an exponent part and the literal [Infinity] are not covered: ethers'
    [formatUnits], the only producer of the strings parsed in this program,
    writes none of them. *)
Definition parseFloat (s : string) : number :=
  let l := list_ascii_of_string s in
  let '(neg, l) :=
    match l with
    | "-"%char :: r => (true, r)
    | "+"%char :: r => (false, r)
    | _ => (false, l)
    end in
  let '(whole, rest) := span_digits l in
  let frac :=
    match rest with
    | "."%char :: r => fst (span_digits r)
    | _ => []
    end in
  match whole ++ frac with
  | [] => S754_nan
  | ds => of_ratio neg (digits_value ds) (pow10 (length frac))
  end.

(** *** [Number::toString], radix 10

    A finite [x > 0] is the exact rational [num / den]. *)
Definition num_of (m : positive) (e : Z) : Z := Zpos m * 2 ^ Z.max e 0.
Definition den_of (e : Z) : Z := 2 ^ Z.max (- e) 0.

(** The decimal exponent [n] with [10^(n-1) <= p/q < 10^n], searched from
    [n] upwards when [p/q >= 1] and downwards otherwise. *)
Fixpoint magnitude_up (fuel : nat) (p q : Z) (n : Z) : Z :=
  match fuel with
  | O => n
  | S fuel' => if p <? q * 10 ^ n then n else magnitude_up fuel' p q (n + 1)
  end.

Fixpoint magnitude_down (fuel : nat) (p q : Z) (n : Z) : Z :=
  match fuel with
  | O => n
  | S fuel' =>
      if q <=? p * 10 ^ (1 - n) then n else magnitude_down fuel' p q (n - 1)
  end.

Definition magnitude (p q : Z) : Z :=
  if q <=? p then magnitude_up 400 p q 1 else magnitude_down 400 p q 0.

(** The number nearest to [s * 10^t]. *)
Definition of_decimal (s : Z) (t : Z) : number :=
  if 0 <=? t then of_Z (s * 10 ^ t)
  else of_ratio false (Z.to_N s) (Z.to_pos (10 ^ (- t))).

(** The shortest digit string [s] (of [k] digits, [k] tried from 1 upwards)
    such that [s * 10^(n-k)] converts back to [x]; of the two neighbours of
    [x] at that length, the nearer one, the even one on a tie. *)
Fixpoint shortest (fuel : nat) (x : number) (p q n k : Z) : Z * Z :=
  let t := n - k in
  let a := p * 10 ^ Z.max (- t) 0 in
  let b := q * 10 ^ Z.max t 0 in
  let lo := a / b in
  let r := a mod b in
  let ok_lo := SFeqb (of_decimal lo t) x in
  let ok_hi := SFeqb (of_decimal (lo + 1) t) x in
  let pick :=
    if ok_lo && ok_hi then
      match 2 * r ?= b with
      | Lt => Some lo
      | Gt => Some (lo + 1)
      | Eq => Some (if Z.even lo then lo else lo + 1)
      end
    else if ok_lo then Some lo
    else if ok_hi then Some (lo + 1)
    else None in
  match pick, fuel with
  | Some s, _ => if s =? 10 ^ k then (10 ^ (k - 1), n + 1) else (s, n)
  | None, S fuel' => shortest fuel' x p q n (k + 1)
  | None, O => (lo, n)
  end.

Definition unsigned_toString (m : positive) (e : Z) : list ascii :=
  let p := num_of m e in
  let q := den_of e in
  let '(s, n) := shortest 20 (S754_finite false m e) p q (magnitude p q) 1 in
  let ds := numeral (Z.to_N s) in
  let k := Z.of_nat (length ds) in
  if (-5 <=? n) && (n <=? 21) then
    if k <=? n then ds ++ zeros (Z.to_nat (n - k))
    else if 0 <? n then
      firstn (Z.to_nat n) ds ++ "."%char :: skipn (Z.to_nat n) ds
    else "0"%char :: "."%char :: zeros (Z.to_nat (- n)) ++ ds
  else
    let sign := if n - 1 <? 0 then "-"%char else "+"%char in
    let ex := numeral (Z.to_N (Z.abs (n - 1))) in
    match ds with
    | [d] => d :: "e"%char :: sign :: ex
    | d :: rest => d :: "."%char :: rest ++ "e"%char :: sign :: ex
    | [] => []
    end.

Definition toString (x : number) : string :=
  match x with
  | S754_nan => "NaN"
  | S754_zero _ => "0"
  | S754_infinity false => "Infinity"
  | S754_infinity true => "-Infinity"
  | S754_finite neg m e =>
      let s := unsigned_toString m e in
      string_of_list_ascii (if neg then "-"%char :: s else s)
  end.

(** *** [Number.prototype.toFixed]

    [f] is the number of fraction digits (5 in this program; the range
    check 0..100 is not modelled). *)

(** The integer [n] for which [n / 10^f - m * 2^e] is nearest to zero, the
    larger of the two on a tie. *)
Definition nearest_scaled (m : positive) (e : Z) (f : nat) : Z :=
  (2 * num_of m e * 10 ^ Z.of_nat f + den_of e) / (2 * den_of e).

Definition fixed_digits (n : Z) (f : nat) : list ascii :=
  let m := pad_zeros (f + 1) (numeral (Z.to_N n)) in
  match f with
  | O => m
  | _ =>
      let k := length m in
      firstn (k - f) m ++ "."%char :: skipn (k - f) m
  end.

Definition toFixed (x : number) (f : nat) : string :=
  match x with
  | S754_nan | S754_infinity _ => toString x
  | S754_zero _ => string_of_list_ascii (fixed_digits 0 f)
  | S754_finite neg m e =>
      let s := if neg then ["-"%char] else [] in
      let body :=
        if 10 ^ 21 * den_of e <=? num_of m e then unsigned_toString m e
        else fixed_digits (nearest_scaled m e f) f in
      string_of_list_ascii (s ++ body)
  end.

(** *** Reading the results *)

(** [x] is exactly the integer [z]. *)
Definition represents (x : number) (z : Z) : bool :=
  match x with
  | S754_zero _ => z =? 0
  | S754_finite neg m e =>
      (if neg then - num_of m e else num_of m e) =? z * den_of e
  | S754_infinity _ | S754_nan => false
  end.

(** The magnitude of [x] is below [10^21]: the numbers [toFixed] writes in
    fixed notation. *)
Definition below_1e21 (x : number) : bool :=
  match x with
  | S754_zero _ => true
  | S754_finite _ m e => num_of m e <? 10 ^ 21 * den_of e
  | S754_infinity _ | S754_nan => false
  end.

(** [s] is a decimal string with exactly [f] fraction digits: an optional
    minus sign, one digit or more, a point, [f] digits. *)
Definition is_fixed_decimal (f : nat) (s : string) : bool :=
  let l := list_ascii_of_string s in
  let l := match l with "-"%char :: r => r | _ => l end in
  let '(whole, rest) := span_digits l in
  match whole, rest with
  | _ :: _, "."%char :: frac => forallb is_digit frac && (length frac =? f)%nat
  | _, _ => false
  end.

(** [Number.isNaN]. *)
Definition isNaN (x : number) : bool :=
  match x with S754_nan => true | _ => false end.

(** The sign bit: set for negative numbers, for [-0] and for [-Infinity]. *)
Definition signbit (x : number) : bool :=
  match x with
  | S754_zero s | S754_infinity s | S754_finite s _ _ => s
  | S754_nan => false
  end.

End Js.

(** ** ethers v5: [BigNumber], [formatUnits], [formatEther] *)

Module Ethers.

Definition BigNumber := Z.

(** The first group of ethers' regular-expression match on the fraction:
    the fraction without its trailing zeros, one ["0"] kept when nothing
    else is left. *)
Fixpoint drop_zeros (l : list ascii) : list ascii :=
  match l with
  | "0"%char :: r => drop_zeros r
  | _ => l
  end.

Definition strip_trailing_zeros (l : list ascii) : list ascii :=
  match rev (drop_zeros (rev l)) with
  | [] => ["0"%char]
  | r => r
  end.

(** [formatFixed(value, decimals)] once [getMultiplier(decimals)] has
    accepted [decimals]. *)
Definition formatFixed (value : BigNumber) (decimals : nat) : string :=
  let multiplier := 10 ^ Z.of_nat decimals in
  let negative := value <? 0 in
  let value := if negative then value * -1 else value in
  let fraction := Js.numeral (Z.to_N (value mod multiplier)) in
  let fraction := Js.pad_zeros decimals fraction in
  let fraction := strip_trailing_zeros fraction in
  let whole := Js.numeral (Z.to_N (value / multiplier)) in
  let value :=
    match decimals with
    | O => whole
    | _ => whole ++ "."%char :: fraction
    end in
  string_of_list_ascii (if negative then "-"%char :: value else value).

(** [formatUnits(value, decimals)] with a numeric [decimals]:
    [getMultiplier] throws unless [0 <= decimals <= 256]. *)
Definition formatUnits (value : BigNumber) (decimals : N) : Result string :=
  if (decimals <=? 256)%N then Ok (formatFixed value (N.to_nat decimals))
  else Throw "invalid decimal size".

(** [BigNumber.from(value)] for a value that may be [null]. *)
Definition BigNumber_from (value : option BigNumber) : Result BigNumber :=
  match value with
  | Some v => Ok v
  | None => Throw "invalid BigNumber value"
  end.

(** [formatEther(wei) = formatUnits(wei, 18)], which never throws. *)
Definition formatEther (wei : BigNumber) : string := formatFixed wei 18.

End Ethers.

(** ** Requests, promises and the monad of asynchronous code *)

Inductive Chain : Type := Ethereum | Arbitrum | Optimism | Avalanche.

#[global] Instance Chain_eq_dec : EqDecision Chain.
Proof. solve_decision. Defined.

(** The provider clients of the module: three Alchemy clients and the
    ethers provider imported from [./contract]. *)
Inductive Provider : Type :=
| alchemyEthereum | alchemyArbitrum | alchemyOptimism | providerAvalanche.

#[global] Instance Provider_eq_dec : EqDecision Provider.
Proof. solve_decision. Defined.

Inductive Request : Type :=
| GetBalance (provider : Provider) (userAddress : string)
| GetTokenBalances (provider : Provider) (userAddress : string)
    (contractAddresses : list string)
| BalanceOf (contract : string) (owner : string)
| Decimals (contract : string).

(** What the program does that its caller or its collaborators can see. *)
Inductive Event : Type :=
| Issued (r : Request)          (* a request leaves for its provider *)
| Awaited (rs : list Request)   (* the function is suspended on a promise
                                   of [rs]: until all of them are fulfilled
                                   or one is rejected *)
| ConsoleError (cause : string).

(** A promise: the requests it depends on, the outcome it settles with and
    the instant at which it settles. *)
Record Promise (A : Type) : Type := mkPromise {
  pending : list Request;
  outcome : Result A;
  settled : nat;
}.
Arguments mkPromise {A} pending outcome settled.
Arguments pending {A} p.
Arguments outcome {A} p.
Arguments settled {A} p.

#[global] Instance Result_ret : MRet Result := fun _ a => Ok a.
#[global] Instance Result_bind : MBind Result := fun _ _ f r =>
  match r with
  | Ok a => f a
  | Throw e => Throw e
  end.

(** The body of an async function: its outcome and the events of its run. *)
Definition M (A : Type) : Type := Result A * list Event.

#[global] Instance M_ret : MRet M := fun _ a => (Ok a, []).
#[global] Instance M_bind : MBind M := fun _ _ f m =>
  match m with
  | (Ok a, t) => let '(r, t') := f a in (r, t ++ t')
  | (Throw e, t) => (Throw e, t)
  end.

Definition throw {A} (message : string) : M A := (Throw message, []).

Definition try_catch {A} (body : M A) (handler : string → M A) : M A :=
  match body with
  | (Ok a, t) => (Ok a, t)
  | (Throw e, t) => let '(r, t') := handler e in (r, t ++ t')
  end.

(** Synchronous code run inside an async function. *)
Definition lift {A} (r : Result A) : M A := (r, []).

Definition console_error (error : string) : M unit :=
  (Ok tt, [ConsoleError error]).

(** Calling a provider method sends the request and returns a promise,
    which settles with the answer [o] when it arrives, at the instant [t]. *)
Definition issue {A} (r : Request) (o : Result A) (t : nat) : M (Promise A) :=
  (Ok (mkPromise [r] o t), [Issued r]).

(** [await p]: the function is suspended until [p] settles, then goes on
    with its value or throws its rejection. *)
Definition await {A} (p : M (Promise A)) : M A :=
  p ≫= λ p, (outcome p, [Awaited (pending p)]).

(** The rejection that comes first among the members of [ps], with its
    instant: [Promise.all] is rejected by the member that is rejected first
    in time, wherever it stands in the array.  Instants of promises in
    flight together are meant to be distinct; should two rejections bear the
    same instant, the member that stands first is taken (its requests were
    issued first). *)
Fixpoint first_rejected {A} (ps : list (Promise A)) : option (nat * string) :=
  match ps with
  | [] => None
  | p :: ps' =>
      match outcome p, first_rejected ps' with
      | Throw e, Some (t', e') =>
          if (settled p <=? t')%nat then Some (settled p, e) else Some (t', e')
      | Throw e, None => Some (settled p, e)
      | Ok _, r => r
      end
  end.

(** [Promise.all]: rejected as soon as one member is, with the reason of
    that member; otherwise fulfilled with all the values, in the order of
    the array, once the last member is fulfilled. *)
Definition Promise_all {A} (ps : list (Promise A)) : Promise (list A) :=
  match first_rejected ps with
  | Some (t, e) => mkPromise (concat (pending <$> ps)) (Throw e) t
  | None =>
      mkPromise (concat (pending <$> ps)) (mapM outcome ps)
        (foldr Nat.max 0%nat (settled <$> ps))
  end.

(** [Promise.all] of two promises of different types. *)
Definition Promise_all2 {A B} (p : Promise A) (q : Promise B)
  : Promise (A * B) :=
  match outcome p, outcome q with
  | Ok a, Ok b =>
      mkPromise (pending p ++ pending q) (Ok (a, b))
        (Nat.max (settled p) (settled q))
  | Throw e, Ok _ => mkPromise (pending p ++ pending q) (Throw e) (settled p)
  | Ok _, Throw e => mkPromise (pending p ++ pending q) (Throw e) (settled q)
  | Throw e, Throw e' =>
      if (settled p <=? settled q)%nat
      then mkPromise (pending p ++ pending q) (Throw e) (settled p)
      else mkPromise (pending p ++ pending q) (Throw e') (settled q)
  end.

(** The promise an async function returns once it is suspended on [p]: it
    settles when [p] does, with what the rest of the body, [k], makes of
    [p]'s value. *)
Definition Promise_then {A B} (p : Promise A) (k : A → Result B) : Promise B :=
  mkPromise (pending p) (outcome p ≫= k) (settled p).

Definition run_result {A} (m : M A) : Result A := fst m.
Definition trace {A} (m : M A) : list Event := snd m.

(** ** src/lib/token.ts *)

Definition UserAddress := string.

Record TokenContractAddress : Type := {
  address : string;
  chain : Chain;
}.

Record AccountCurrentBalance : Type := {
  eth : string;
  arb : string;
  op : string;
  avax : string;
}.

(** [tokenChain] is the field [chain] of the source; [balance] is declared
    [number], and holds whatever the code stores in it. *)
Record AccountCurrentTokenBalance : Type := {
  tokenAddress : string;
  tokenChain : Chain;
  balance : Js.value;
}.

(** Modelled from the spec: the response type of alchemy-sdk's
    [getTokenBalances], a sequence of [{contractAddress, tokenBalance:
    integer-or-null}]; [None] is [null]. *)
Record TokenBalance : Type := {
  contractAddress : string;
  tokenBalance : option Ethers.BigNumber;
}.

Record TokenBalancesResponse : Type := {
  tokenBalances : list TokenBalance;
}.

(** Modelled from the spec: the outbound collaborators (section 6), as
    oracles that say what each request settles with.  The Alchemy clients
    come from alchemy-sdk and [providerAvalanche] from [./contract]; a
    native balance and [balanceOf] are integers in the smallest unit,
    [decimals] is the [uint8] of the ABI written in
    [getAvalancheTokenBalances].  [arrival] is the instant at which the
    answer to a request arrives: it decides which of several requests in
    flight is answered first, and nothing else. *)
Record Providers : Type := {
  core_getBalance : Provider → UserAddress → Result Ethers.BigNumber;
  core_getTokenBalances :
    Provider → UserAddress → list string → Result TokenBalancesResponse;
  contract_balanceOf : string → UserAddress → Result Ethers.BigNumber;
  contract_decimals : string → Result N;
  arrival : Request → nat;
}.

Section Token.

Variable env : Providers.

Definition getBalance_call (p : Provider) (userAddress : UserAddress)
  : M (Promise Ethers.BigNumber) :=
  issue (GetBalance p userAddress) (core_getBalance env p userAddress)
    (arrival env (GetBalance p userAddress)).

Definition getTokenBalances_call (p : Provider) (userAddress : UserAddress)
    (contractAddresses : list string) : M (Promise TokenBalancesResponse) :=
  issue (GetTokenBalances p userAddress contractAddresses)
    (core_getTokenBalances env p userAddress contractAddresses)
    (arrival env (GetTokenBalances p userAddress contractAddresses)).

Definition balanceOf_call (contract : string) (owner : UserAddress)
  : M (Promise Ethers.BigNumber) :=
  issue (BalanceOf contract owner) (contract_balanceOf env contract owner)
    (arrival env (BalanceOf contract owner)).

Definition decimals_call (contract : string) : M (Promise N) :=
  issue (Decimals contract) (contract_decimals env contract)
    (arrival env (Decimals contract)).

Definition getBalance (userAddress : UserAddress) : M AccountCurrentBalance :=
  ethBalance ← await (getBalance_call alchemyEthereum userAddress);
  arbBalance ← await (getBalance_call alchemyArbitrum userAddress);
  optBalance ← await (getBalance_call alchemyOptimism userAddress);
  avaxBalance ← await (getBalance_call providerAvalanche userAddress);
  let networkBalances := {|
    eth := Js.toFixed (Js.parseFloat (Ethers.formatEther ethBalance)) 5;
    arb := Js.toFixed (Js.parseFloat (Ethers.formatEther arbBalance)) 5;
    op := Js.toFixed (Js.parseFloat (Ethers.formatEther optBalance)) 5;
    avax := Js.toFixed (Js.parseFloat (Ethers.formatEther avaxBalance)) 5;
  |} in
  mret networkBalances.

(** [filter] then [map]; the [!] of [balance.tokenBalance!] is erased at
    run time, and [formatEther] throws on the [null] it would let through. *)
Definition processTokenBalancesResponse (tokenBalances_ : TokenBalancesResponse)
    (chain_ : Chain) : Result (list AccountCurrentTokenBalance) :=
  let data :=
    mapM (λ balance_,
        wei ← Ethers.BigNumber_from (tokenBalance balance_);
        mret {|
          tokenAddress := contractAddress balance_;
          tokenChain := chain_;
          balance := Js.Num (Js.parseFloat (Ethers.formatEther wei));
        |})
      (filter (λ balance_, tokenBalance balance_ ≠ None)
         (tokenBalances tokenBalances_)) in
  data.

(** The async arrow function mapped over the contracts: it sends both
    requests and is suspended on their [Promise.all]; the promise it
    returns settles with the record built from the two answers. *)
Definition tokenCallback (userAddress : string) (tokenContractAddress : string)
  : M (Promise AccountCurrentTokenBalance) :=
  balanceP ← balanceOf_call tokenContractAddress userAddress;
  decimalsP ← decimals_call tokenContractAddress;
  mret (Promise_then (Promise_all2 balanceP decimalsP)
          (λ '(balance_, decimals_),
             formatted ← Ethers.formatUnits balance_ decimals_;
             mret {|
               tokenAddress := tokenContractAddress;
               tokenChain := Avalanche;
               balance := Js.Str formatted;
             |})).

(** [tokenContractAddresses.map(async ...)]: every callback runs up to
    its await before the next one starts. *)
Definition dataPromises (userAddress : string)
    (tokenContractAddresses : list string)
  : M (list (Promise AccountCurrentTokenBalance)) :=
  mapM (tokenCallback userAddress) tokenContractAddresses.

Definition getAvalancheTokenBalances (userAddress : string)
    (tokenContractAddresses : list string)
  : M (Promise (list AccountCurrentTokenBalance)) :=
  dataPromises ← dataPromises userAddress tokenContractAddresses;
  let data := Promise_all dataPromises in
  mret data.

Definition tokensOf (c : Chain) (tokenContractAddresses : list TokenContractAddress)
  : list string :=
  address <$> filter (λ a, chain a = c) tokenContractAddresses.

Definition invalid : string := "Not valid contract_addresses".

Definition getTokenBalance (userAddress : UserAddress)
    (tokenContractAddresses : list TokenContractAddress)
  : M (list AccountCurrentTokenBalance) :=
  let ethereumTokens := tokensOf Ethereum tokenContractAddresses in
  let arbitrumTokens := tokensOf Arbitrum tokenContractAddresses in
  let optimismTokens := tokensOf Optimism tokenContractAddresses in
  let avalancheTokens := tokensOf Avalanche tokenContractAddresses in
  let result : list AccountCurrentTokenBalance := [] in
  result ←
    (if (0 <? length ethereumTokens)%nat then
       try_catch
         (tokenBalances_ ← await (getTokenBalances_call alchemyEthereum userAddress ethereumTokens);
          data ← lift (processTokenBalancesResponse tokenBalances_ Ethereum);
          mret (result ++ data))
         (λ error, _ ← console_error error; throw invalid)
     else mret result);
  result ←
    (if (0 <? length arbitrumTokens)%nat then
       try_catch
         (tokenBalances_ ← await (getTokenBalances_call alchemyArbitrum userAddress arbitrumTokens);
          data ← lift (processTokenBalancesResponse tokenBalances_ Arbitrum);
          mret (result ++ data))
         (λ error, _ ← console_error error; throw invalid)
     else mret result);
  result ←
    (if (0 <? length optimismTokens)%nat then
       try_catch
         (tokenBalances_ ← await (getTokenBalances_call alchemyOptimism userAddress optimismTokens);
          data ← lift (processTokenBalancesResponse tokenBalances_ Optimism);
          mret (result ++ data))
         (λ error, _ ← console_error error; throw invalid)
     else mret result);
  result ←
    (if (0 <? length avalancheTokens)%nat then
       try_catch
         (data ← await (getAvalancheTokenBalances userAddress avalancheTokens);
          mret (result ++ data))
         (λ error, _ ← console_error error; throw invalid)
     else mret result);
  mret result.

End Token.

(** ** The four blocks of [getTokenBalance], chain by chain

    The source repeats one block per chain.  The definitions below say what
    one block computes ([fetch]) and what it does ([blockTrace]); the
    lemmas of the section on blocks prove that the code above is the
    sequence of the four. *)

Definition provider_of (c : Chain) : Provider :=
  match c with
  | Ethereum => alchemyEthereum
  | Arbitrum => alchemyArbitrum
  | Optimism => alchemyOptimism
  | Avalanche => providerAvalanche
  end.

(** The chain a request goes to. *)
Definition request_chain (r : Request) : Chain :=
  match r with
  | GetBalance p _ | GetTokenBalances p _ _ =>
      match p with
      | alchemyEthereum => Ethereum
      | alchemyArbitrum => Arbitrum
      | alchemyOptimism => Optimism
      | providerAvalanche => Avalanche
      end
  | BalanceOf _ _ | Decimals _ => Avalanche
  end.

Definition contractRequests (userAddress : string) (contract : string)
  : list Request :=
  [BalanceOf contract userAddress; Decimals contract].

(** The requests of one chain's batch. *)
Definition requests (c : Chain) (userAddress : string) (tokens : list string)
  : list Request :=
  match c with
  | Avalanche => tokens ≫= contractRequests userAddress
  | _ => [GetTokenBalances (provider_of c) userAddress tokens]
  end.

Section Blocks.

Variable env : Providers.

(** The promise that the callback of one contract returns. *)
Definition contractPromise (userAddress : string) (contract : string)
  : Promise AccountCurrentTokenBalance :=
  Promise_then
    (Promise_all2
       (mkPromise [BalanceOf contract userAddress]
          (contract_balanceOf env contract userAddress)
          (arrival env (BalanceOf contract userAddress)))
       (mkPromise [Decimals contract]
          (contract_decimals env contract)
          (arrival env (Decimals contract))))
    (λ '(balance_, decimals_),
       formatted ← Ethers.formatUnits balance_ decimals_;
       mret {|
         tokenAddress := contract;
         tokenChain := Avalanche;
         balance := Js.Str formatted;
       |}).

(** What the promise of one contract's callback settles with. *)
Definition contractOutcome (userAddress : string) (contract : string)
  : Result AccountCurrentTokenBalance :=
  outcome (contractPromise userAddress contract).

(** The promise of an Avalanche batch. *)
Definition batchPromise (userAddress : string) (tokens : list string)
  : Promise (list AccountCurrentTokenBalance) :=
  Promise_all (contractPromise userAddress <$> tokens).

(** The records of one chain's batch, or the cause of its failure. *)
Definition fetch (c : Chain) (userAddress : string) (tokens : list string)
  : Result (list AccountCurrentTokenBalance) :=
  match c with
  | Avalanche => outcome (batchPromise userAddress tokens)
  | _ =>
      core_getTokenBalances env (provider_of c) userAddress tokens
        ≫= λ response, processTokenBalancesResponse response c
  end.

Definition blockTrace (c : Chain) (userAddress : string) (tokens : list string)
  : list Event :=
  (Issued <$> requests c userAddress tokens)
  ++ Awaited (requests c userAddress tokens)
  :: match fetch c userAddress tokens with
     | Ok _ => []
     | Throw cause => [ConsoleError cause]
     end.

Definition block (c : Chain) (userAddress : string) (tokens : list string)
    (result : list AccountCurrentTokenBalance)
  : M (list AccountCurrentTokenBalance) :=
  match tokens with
  | [] => (Ok result, [])
  | _ =>
      (match fetch c userAddress tokens with
       | Ok data => Ok (result ++ data)
       | Throw _ => Throw invalid
       end,
       blockTrace c userAddress tokens)
  end.

Fixpoint blocks (cs : list Chain) (userAddress : string)
    (tokenContractAddresses : list TokenContractAddress)
    (result : list AccountCurrentTokenBalance)
  : M (list AccountCurrentTokenBalance) :=
  match cs with
  | [] => mret result
  | c :: cs' =>
      block c userAddress (tokensOf c tokenContractAddresses) result
        ≫= blocks cs' userAddress tokenContractAddresses
  end.

End Blocks.

Definition supportedChains : list Chain :=
  [Ethereum; Arbitrum; Optimism; Avalanche].

(** The records of chain [c] for a whole input: nothing is fetched for a
    chain without tokens. *)
Definition batch (env : Providers) (c : Chain) (userAddress : string)
    (tokenContractAddresses : list TokenContractAddress)
  : Result (list AccountCurrentTokenBalance) :=
  match tokensOf c tokenContractAddresses with
  | [] => Ok []
  | tokens => fetch env c userAddress tokens
  end.

(** ** The vocabulary of the properties *)

(** The Response Normalizer in the words of the specification (section
    4.2), stated on its own: an entry without a raw balance is dropped,
    every other entry becomes one record, converted with 18 digits and
    tagged with the chain, in the order of the response. *)
Inductive Normalized (c : Chain)
  : list TokenBalance → list AccountCurrentTokenBalance → Prop :=
| Normalized_nil : Normalized c [] []
| Normalized_null tb l out :
    tokenBalance tb = None →
    Normalized c l out →
    Normalized c (tb :: l) out
| Normalized_keep tb raw l out :
    tokenBalance tb = Some raw →
    Normalized c l out →
    Normalized c (tb :: l)
      ({| tokenAddress := contractAddress tb;
          tokenChain := c;
          balance := Js.Num (Js.parseFloat (Ethers.formatEther raw)) |} :: out).

#[global] Instance TokenContractAddress_eq_dec : EqDecision TokenContractAddress.
Proof. solve_decision. Defined.

(** The token reference a record answers. *)
Definition reference (r : AccountCurrentTokenBalance) : TokenContractAddress :=
  {| address := tokenAddress r; chain := tokenChain r |}.

(** How many times [x] occurs in [l]. *)
Definition occurrences `{EqDecision A} (x : A) (l : list A) : nat :=
  length (filter (λ y, y = x) l).

(** The contract of a batch provider (section 4.1 of the specification): a
    response has one entry per requested contract, in the order asked. *)
Definition answers_as_asked (env : Providers) : Prop :=
  ∀ p u tokens response,
    core_getTokenBalances env p u tokens = Ok response →
    contractAddress <$> tokenBalances response = tokens.

(** The provider call of chain [c] fails: the batched call of an Alchemy
    chain, or the [balanceOf] or [decimals] call of one Avalanche contract. *)
Definition provider_call_fails (env : Providers) (c : Chain) (u : string)
    (l : list TokenContractAddress) : Prop :=
  match c with
  | Avalanche =>
      ∃ a, a ∈ tokensOf Avalanche l ∧
           (isOk (contract_balanceOf env a u) = false ∨
            isOk (contract_decimals env a) = false)
  | _ =>
      tokensOf c l ≠ [] ∧
      isOk (core_getTokenBalances env (provider_of c) u (tokensOf c l)) = false
  end.

(** [Object.entries] of the native balances. *)
Definition entries (r : AccountCurrentBalance) : list (string * string) :=
  [("eth", eth r); ("arb", arb r); ("op", op r); ("avax", avax r)].

(** ** Sample providers *)

(** Every account holds [b] smallest units of every currency and of every
    token, except that the batch providers report no balance for the
    contract ["0xNull"] and that the contract ["0xBad"] reverts; every
    token has 18 decimals. *)
Definition sample (b : Z) : Providers := {|
  core_getBalance := λ _ _, Ok b;
  core_getTokenBalances := λ _ _ contracts,
    Ok {| tokenBalances :=
            (λ a, {| contractAddress := a;
                     tokenBalance :=
                       if decide (a = "0xNull") then None else Some b |})
            <$> contracts |};
  contract_balanceOf := λ contract _,
    if decide (contract = "0xBad") then Throw "call revert exception"
    else Ok b;
  contract_decimals := λ _, Ok 18%N;
  arrival := λ _, 1%nat;
|}.

(** [env] with the Alchemy client [p] out of reach. *)
Definition outage (p : Provider) (env : Providers) : Providers := {|
  core_getBalance := λ q u,
    if decide (q = p) then Throw "missing response"
    else core_getBalance env q u;
  core_getTokenBalances := λ q u contracts,
    if decide (q = p) then Throw "missing response"
    else core_getTokenBalances env q u contracts;
  contract_balanceOf := contract_balanceOf env;
  contract_decimals := contract_decimals env;
  arrival := arrival env;
|}.

#[global] Instance Request_eq_dec : EqDecision Request.
Proof. solve_decision. Defined.

Definition is_Issued (e : Event) : bool :=
  match e with Issued _ => true | _ => false end.

(** A joint fan-out: every request is issued before anything is awaited. *)
Fixpoint jointly_awaited (t : list Event) : bool :=
  match t with
  | [] => true
  | Awaited _ :: t' => forallb (λ e, negb (is_Issued e)) t'
  | _ :: t' => jointly_awaited t'
  end.

(** One chain after another: whenever a request is issued, the requests
    still outstanding (issued and not yet awaited) go to the same chain. *)
Fixpoint in_turn (outstanding : list Request) (t : list Event) : bool :=
  match t with
  | [] => true
  | Issued r :: t' =>
      forallb (λ r', bool_decide (request_chain r' = request_chain r))
        outstanding
      && in_turn (r :: outstanding) t'
  | Awaited rs :: t' => in_turn (filter (λ r', r' ∉ rs) outstanding) t'
  | ConsoleError _ :: t' => in_turn outstanding t'
  end.

(** The traces made of blocks: the requests of one chain, the await of
    exactly these requests, and console output. *)
Inductive Blockwise : list Event → Prop :=
| Blockwise_nil : Blockwise []
| Blockwise_block c rs t :
    Forall (λ r, request_chain r = c) rs →
    Blockwise t →
    Blockwise ((Issued <$> rs) ++ Awaited rs :: t)
| Blockwise_log cause t :
    Blockwise t → Blockwise (ConsoleError cause :: t).

(** Two environments give contract [a] the same answers. *)
Definition same_answers (env env' : Providers) (u a : string) : Prop :=
  contract_balanceOf env' a u = contract_balanceOf env a u ∧
  contract_decimals env' a = contract_decimals env a.

(** Two environments give contract [a] the same answers, at the same
    instants. *)
Definition agree_on (env env' : Providers) (u a : string) : Prop :=
  contract_balanceOf env' a u = contract_balanceOf env a u ∧
  contract_decimals env' a = contract_decimals env a ∧
  arrival env' (BalanceOf a u) = arrival env (BalanceOf a u) ∧
  arrival env' (Decimals a) = arrival env (Decimals a).

(** ** More vocabulary: order of the chains, answers, what a trace holds *)

(** The place of a chain in the order of the blocks and of the queries. *)
Definition rank (c : Chain) : nat :=
  match c with
  | Ethereum => 0
  | Arbitrum => 1
  | Optimism => 2
  | Avalanche => 3
  end.

(** The adapters in the order in which [getBalance] queries them. *)
Definition adapters : list Provider :=
  [alchemyEthereum; alchemyArbitrum; alchemyOptimism; providerAvalanche].

(** The requests and the console output of a trace, in order. *)
Definition issued (t : list Event) : list Request :=
  omap (λ e, match e with Issued r => Some r | _ => None end) t.

Definition logged (t : list Event) : list string :=
  omap (λ e, match e with ConsoleError cause => Some cause | _ => None end) t.

(** Contract [a] answers both requests, with a number of decimals that
    [formatUnits] accepts. *)
Definition contract_answers (env : Providers) (u a : string) : Prop :=
  ∃ b d, contract_balanceOf env a u = Ok b ∧
         contract_decimals env a = Ok d ∧ (d <= 256)%N.

(** Chain [c] has nothing to fetch, or its provider answers: the batched
    call of an Alchemy chain, every contract of the Avalanche batch. *)
Definition chain_answers (env : Providers) (c : Chain) (u : string)
    (l : list TokenContractAddress) : Prop :=
  match c with
  | Avalanche => ∀ a, a ∈ tokensOf Avalanche l → contract_answers env u a
  | _ =>
      tokensOf c l = [] ∨
      isOk (core_getTokenBalances env (provider_of c) u (tokensOf c l)) = true
  end.

(** The requests a call of [getTokenBalance] makes when nothing fails: for
    each chain with tokens, in the order of the blocks, the requests of its
    batch. *)
Definition plan (u : string) (l : list TokenContractAddress) : list Request :=
  supportedChains ≫= λ c,
    match tokensOf c l with
    | [] => []
    | tokens => requests c u tokens
    end.

(** The input regrouped by chain, each group in input order. *)
Definition grouped (l : list TokenContractAddress) : list TokenContractAddress :=
  supportedChains ≫= λ c, filter (λ x, chain x = c) l.

Section Run.

Variable env : Providers.

(** What the block of chain [c] does for the input [l]. *)
Definition blockEvents (c : Chain) (u : string)
    (l : list TokenContractAddress) : list Event :=
  match tokensOf c l with
  | [] => []
  | tokens => blockTrace env c u tokens
  end.

(** The chains whose block is run: all of them up to the first whose batch
    fails, that one included. *)
Fixpoint ran (cs : list Chain) (u : string) (l : list TokenContractAddress)
  : list Chain :=
  match cs with
  | [] => []
  | c :: cs' => c :: (if isOk (batch env c u l) then ran cs' u l else [])
  end.

End Run.

(** ** More vocabulary: failures in time, queries in order, requests only *)

(** What can reject the promise of contract [a], each with the instant at
    which it happens: the rejection of [balanceOf], the rejection of
    [decimals], and, when both are answered, the refusal of the decimals by
    [formatUnits], which comes with the later of the two answers. *)
Definition rejections (env : Providers) (u a : string) : list (nat * string) :=
  match contract_balanceOf env a u, contract_decimals env a with
  | Throw e, Throw e' =>
      [(arrival env (BalanceOf a u), e); (arrival env (Decimals a), e')]
  | Throw e, Ok _ => [(arrival env (BalanceOf a u), e)]
  | Ok _, Throw e' => [(arrival env (Decimals a), e')]
  | Ok b, Ok d =>
      match Ethers.formatUnits b d with
      | Throw e =>
          [(Nat.max (arrival env (BalanceOf a u)) (arrival env (Decimals a)),
            e)]
      | Ok _ => []
      end
  end.

(** [cause] is what makes the fetch of chain [c] fail: the rejection of the
    batched call of an Alchemy chain; on Avalanche, a rejection of one of
    the batch's contracts that no other rejection of the batch precedes in
    time.  The place of the contract in the batch plays no part. *)
Definition first_failure (env : Providers) (c : Chain) (u : string)
    (l : list TokenContractAddress) (cause : string) : Prop :=
  match c with
  | Avalanche =>
      ∃ a t,
        a ∈ tokensOf Avalanche l ∧
        (t, cause) ∈ rejections env u a ∧
        ∀ a' t' e',
          a' ∈ tokensOf Avalanche l → (t', e') ∈ rejections env u a' →
          (t ≤ t')%nat
  | _ =>
      tokensOf c l ≠ [] ∧
      core_getTokenBalances env (provider_of c) u (tokensOf c l) = Throw cause
  end.

(** The adapters that [getBalance] gets to query, out of [ps]: each one as
    long as those before it have answered. *)
Fixpoint queried (env : Providers) (u : string) (ps : list Provider)
  : list Provider :=
  match ps with
  | [] => []
  | p :: ps' =>
      p :: (if isOk (core_getBalance env p u) then queried env u ps' else [])
  end.

(** The fetch of one chain, as its provider sees it: one batched request,
    awaited, on an Alchemy chain; on Avalanche the two requests of every
    contract, all of them issued before the one await of them all. *)
Definition chainEvents (c : Chain) (u : string) (tokens : list string)
  : list Event :=
  match c with
  | Avalanche =>
      (Issued <$> (tokens ≫= λ a, [BalanceOf a u; Decimals a]))
      ++ [Awaited (tokens ≫= λ a, [BalanceOf a u; Decimals a])]
  | _ =>
      [ Issued (GetTokenBalances (provider_of c) u tokens);
        Awaited [GetTokenBalances (provider_of c) u tokens] ]
  end.

Definition is_ConsoleError (e : Event) : bool :=
  match e with ConsoleError _ => true | _ => false end.

(** The requests and awaits of a trace, without the console output. *)
Definition exchanges (t : list Event) : list Event :=
  filter (λ e, is_ConsoleError e = false) t.

(** A batch provider answers within what it was asked: the addresses of a
    response are among the addresses requested, none more often than
    requested. *)
Definition answers_within (env : Providers) : Prop :=
  ∀ p u tokens response,
    core_getTokenBalances env p u tokens = Ok response →
    contractAddress <$> tokenBalances response ⊆+ tokens.

(** A batch provider that writes addresses its own way: whatever it is
    asked, it answers for ["0xaa"] and for ["0xOther"]. *)
Definition relabelling : Providers := {|
  core_getBalance := λ _ _, Ok 0;
  core_getTokenBalances := λ _ _ _,
    Ok {| tokenBalances :=
            [ {| contractAddress := "0xaa"; tokenBalance := Some 1 |};
              {| contractAddress := "0xOther"; tokenBalance := Some 1 |} ] |};
  contract_balanceOf := λ _ _, Ok 0;
  contract_decimals := λ _, Ok 18%N;
  arrival := λ _, 1%nat;
|}.

(** Two contracts that revert, ["0xA"] with [errA] and ["0xB"] with [errB];
    the answer of ["0xB"] arrives first. *)
Definition racing : Providers := {|
  core_getBalance := λ _ _, Ok 0;
  core_getTokenBalances := λ _ _ _, Ok {| tokenBalances := [] |};
  contract_balanceOf := λ contract _,
    if decide (contract = "0xA") then Throw "errA"
    else if decide (contract = "0xB") then Throw "errB"
    else Ok 0;
  contract_decimals := λ _, Ok 18%N;
  arrival := λ r,
    match r with
    | BalanceOf contract _ => if decide (contract = "0xB") then 1%nat else 2%nat
    | _ => 3%nat
    end;
|}.

(** Both requests of every contract fail; the answer to [decimals] arrives
    before the answer to [balanceOf]. *)
Definition hollow : Providers := {|
  core_getBalance := λ _ _, Ok 0;
  core_getTokenBalances := λ _ _ _, Ok {| tokenBalances := [] |};
  contract_balanceOf := λ _ _, Throw "no balanceOf";
  contract_decimals := λ _, Throw "no decimals";
  arrival := λ r,
    match r with
    | Decimals _ => 1%nat
    | _ => 2%nat
    end;
|}.

(** The requests of a trace that go to chain [c], in the order in which
    they were issued. *)
Definition sent_to (c : Chain) (t : list Event) : list Request :=
  filter (λ r, request_chain r = c) (issued t).

(** ** Configuration of the Alchemy clients (lines 5 to 22 of the source) *)

(** The values of alchemy-sdk's [Network] that the module uses. *)
Inductive Network : Type :=
| ETH_MAINNET | ETH_GOERLI
| ARB_MAINNET | ARB_GOERLI
| OPT_MAINNET | OPT_GOERLI.

(** [process.env], for the variables the module reads; [None] is an unset
    variable ([undefined]). *)
Record ProcessEnv : Type := {
  ALCHEMY_API_KEY_ETHEREUM : option string;
  ALCHEMY_API_KEY_ARBITRUM : option string;
  ALCHEMY_API_KEY_OPTIMISM : option string;
  NETWORK : option string;
}.

Record AlchemySettings : Type := {
  apiKey : option string;
  network : Network;
}.

Definition settingsEthereum (env : ProcessEnv) : AlchemySettings := {|
  apiKey := ALCHEMY_API_KEY_ETHEREUM env;
  network :=
    if decide (NETWORK env = Some "mainnet") then ETH_MAINNET else ETH_GOERLI;
|}.

Definition settingsArbitrum (env : ProcessEnv) : AlchemySettings := {|
  apiKey := ALCHEMY_API_KEY_ARBITRUM env;
  network :=
    if decide (NETWORK env = Some "mainnet") then ARB_MAINNET else ARB_GOERLI;
|}.

Definition settingsOptimism (env : ProcessEnv) : AlchemySettings := {|
  apiKey := ALCHEMY_API_KEY_OPTIMISM env;
  network :=
    if decide (NETWORK env = Some "mainnet") then OPT_MAINNET else OPT_GOERLI;
|}.

(** A main network, as opposed to a test network. *)
Definition is_mainnet (n : Network) : bool :=
  match n with
  | ETH_MAINNET | ARB_MAINNET | OPT_MAINNET => true
  | ETH_GOERLI | ARB_GOERLI | OPT_GOERLI => false
  end.

(** ** Decimal numerals, digit by digit *)

(** One step of reading a decimal numeral from the left. *)
Definition digit_step (acc : N) (c : ascii) : N :=
  (10 * acc + Js.digit_value c)%N.

(** The character of a decimal digit. *)
Definition digit_char (d : DecimalFacts.digits) : ascii :=
  match d with
  | DecimalFacts.d0 => "0" | DecimalFacts.d1 => "1" | DecimalFacts.d2 => "2"
  | DecimalFacts.d3 => "3" | DecimalFacts.d4 => "4" | DecimalFacts.d5 => "5"
  | DecimalFacts.d6 => "6" | DecimalFacts.d7 => "7" | DecimalFacts.d8 => "8"
  | DecimalFacts.d9 => "9"
  end%char.

(** * Properties *)

(** ** Decimal strings *)

Module JsFacts.
Import Js.

Example formatEther_one : Ethers.formatEther (10 ^ 18) = "1.0".
Proof. reflexivity. Qed.

Example formatEther_wei : Ethers.formatEther 1 = "0.000000000000000001".
Proof. reflexivity. Qed.

Example formatUnits_six : Ethers.formatUnits 1234500 6 = Ok "1.2345".
Proof. reflexivity. Qed.

Example formatUnits_none : Ethers.formatUnits 123 0 = Ok "123".
Proof. reflexivity. Qed.

Example formatUnits_negative :
  Ethers.formatUnits (-1500000000000000000) 18 = Ok "-1.5".
Proof. reflexivity. Qed.

Example parseFloat_tenth :
  parseFloat "0.1" = S754_finite false 7205759403792794 (-56).
Proof. vm_compute. reflexivity. Qed.

Example parseFloat_no_digit : parseFloat "." = S754_nan.
Proof. reflexivity. Qed.

Example toString_samples :
  toString (parseFloat "0.1") = "0.1" ∧
  toString (parseFloat "123.456") = "123.456" ∧
  toString (parseFloat "0.00000015") = "1.5e-7" ∧
  toString (parseFloat "999999999999999999999.0") = "1e+21" ∧
  toString (parseFloat "123456789012345678901234567890.0")
  = "1.2345678901234568e+29".
Proof. repeat split; vm_compute; reflexivity. Qed.

Example toFixed_samples :
  toFixed (parseFloat "123.456789012345678901") 5 = "123.45679" ∧
  toFixed (parseFloat "-5.5") 5 = "-5.50000" ∧
  toFixed (parseFloat "0.000004") 5 = "0.00000" ∧
  toFixed (parseFloat "999999999999999934463.0") 5
  = "999999999999999868928.00000" ∧
  toFixed (parseFloat "1000000000000000000000.0") 5 = "1e+21".
Proof. repeat split; vm_compute; reflexivity. Qed.

Lemma string_of_uint_digits (d : Decimal.uint) :
  forallb is_digit (list_ascii_of_string (NilEmpty.string_of_uint d)) = true.
Proof. induction d; simpl; auto. Qed.

Lemma numeral_digits (n : N) : forallb is_digit (numeral n) = true.
Proof.
  unfold numeral, NilZero.string_of_uint.
  destruct (N.to_uint n) eqn:E; try apply string_of_uint_digits.
  reflexivity.
Qed.

Lemma zeros_digits (n : nat) : forallb is_digit (zeros n) = true.
Proof. induction n; simpl; auto. Qed.

Lemma pad_zeros_digits (n : nat) (l : list ascii) :
  forallb is_digit l = true → forallb is_digit (pad_zeros n l) = true.
Proof.
  intros H. unfold pad_zeros. rewrite forallb_app, zeros_digits, H. reflexivity.
Qed.

Lemma pad_zeros_length (n : nat) (l : list ascii) :
  (n ≤ length (pad_zeros n l))%nat.
Proof.
  unfold pad_zeros, zeros. rewrite length_app, repeat_length. lia.
Qed.

Lemma span_digits_point (a b : list ascii) :
  forallb is_digit a = true →
  span_digits (a ++ "."%char :: b) = (a, "."%char :: b).
Proof.
  induction a as [|c a IH]; simpl; intros H; [reflexivity|].
  apply andb_true_iff in H as [Hc Ha]. rewrite Hc, (IH Ha). reflexivity.
Qed.

Lemma forallb_firstn {A} (p : A → bool) (n : nat) (l : list A) :
  forallb p l = true → forallb p (firstn n l) = true.
Proof.
  revert n; induction l as [|x l IH]; intros [|n]; simpl; auto.
  intros H. apply andb_true_iff in H as [-> Hl]. simpl. auto.
Qed.

Lemma forallb_skipn {A} (p : A → bool) (n : nat) (l : list A) :
  forallb p l = true → forallb p (skipn n l) = true.
Proof.
  revert n; induction l as [|x l IH]; intros [|n]; simpl; auto.
  intros H. apply andb_true_iff in H as [_ Hl]. auto.
Qed.

(** The digits [toFixed] writes below [10^21]: a whole part of one digit or
    more, a point, and [f] digits. *)
Lemma fixed_digits_shape (n : Z) (f : nat) :
  (0 < f)%nat →
  ∃ whole frac,
    fixed_digits n f = whole ++ "."%char :: frac ∧
    whole ≠ [] ∧ forallb is_digit whole = true ∧
    forallb is_digit frac = true ∧ length frac = f.
Proof.
  intros Hf. unfold fixed_digits.
  destruct f as [|f']; [lia|].
  set (m := pad_zeros (S f' + 1) (numeral (Z.to_N n))).
  assert (Hlen : (S f' + 1 ≤ length m)%nat) by apply pad_zeros_length.
  assert (Hdig : forallb is_digit m = true)
    by apply pad_zeros_digits, numeral_digits.
  exists (firstn (length m - S f') m), (skipn (length m - S f') m).
  repeat split.
  - intros E. apply (f_equal (@length ascii)) in E.
    rewrite length_firstn in E. simpl in E. lia.
  - by apply forallb_firstn.
  - by apply forallb_skipn.
  - rewrite length_skipn. lia.
Qed.

Lemma is_fixed_decimal_intro (f : nat) (sign whole frac : list ascii) :
  sign = [] ∨ sign = ["-"%char] →
  whole ≠ [] → forallb is_digit whole = true →
  forallb is_digit frac = true → length frac = f →
  is_fixed_decimal f (string_of_list_ascii (sign ++ whole ++ "."%char :: frac))
  = true.
Proof.
  intros Hs Hw Hdw Hdf Hlen. unfold is_fixed_decimal.
  rewrite list_ascii_of_string_of_list_ascii.
  assert (E : match sign ++ whole ++ "."%char :: frac with
              | "-"%char :: r => r
              | _ => sign ++ whole ++ "."%char :: frac
              end = whole ++ "."%char :: frac).
  { destruct Hs as [-> | ->]; simpl; [|reflexivity].
    destruct whole as [|c w]; [done|]. simpl in *.
    apply andb_true_iff in Hdw as [Hc _].
    destruct (ascii_dec c "-"%char) as [-> | Hne]; [discriminate Hc|].
    destruct c as [[] [] [] [] [] [] [] []]; try reflexivity; done. }
  rewrite E, span_digits_point by done.
  destruct whole; [done|].
  rewrite Hdf. simpl. apply Nat.eqb_eq. done.
Qed.

(** [toFixed] below [10^21] writes fixed notation. *)
Lemma toFixed_fixed (x : number) (f : nat) :
  (0 < f)%nat → below_1e21 x = true → is_fixed_decimal f (toFixed x f) = true.
Proof.
  intros Hf Hx. destruct x as [s|s| |neg m e]; simpl in Hx; try discriminate.
  - unfold toFixed.
    destruct (fixed_digits_shape 0 f Hf) as (w & fr & -> & ? & ? & ? & ?).
    apply (is_fixed_decimal_intro f [] w fr); auto.
  - unfold toFixed.
    assert (E : (10 ^ 21 * den_of e <=? num_of m e) = false).
    { apply Z.leb_gt. by apply Z.ltb_lt. }
    rewrite E.
    destruct (fixed_digits_shape (nearest_scaled m e f) f Hf)
      as (w & fr & -> & ? & ? & ? & ?).
    destruct neg.
    + apply (is_fixed_decimal_intro f ["-"%char] w fr); auto.
    + apply (is_fixed_decimal_intro f [] w fr); auto.
Qed.

End JsFacts.

(** ** The monads *)

Lemma mapM_cons `{MBind F, MRet F} {A B} (f : A → F B) (x : A) (l : list A) :
  mapM f (x :: l) = y ← f x; k ← mapM f l; mret (y :: k).
Proof. reflexivity. Qed.

Lemma Result_mapM_Ok {A B} (f : A → Result B) (l : list A) (k : list B) :
  mapM f l = Ok k ↔ Forall2 (λ x y, f x = Ok y) l k.
Proof.
  revert k; induction l as [|x l IH]; intros k.
  - split; [intros [= <-]; constructor | by inversion 1].
  - rewrite mapM_cons. split.
    + destruct (f x) as [y|e] eqn:Ex; [|done].
      destruct (mapM f l) as [k'|e] eqn:El; [|done].
      intros [= <-]. constructor; [done|]. by apply IH.
    + inversion 1 as [|? y ? k' Hx Hl]; subst.
      apply IH in Hl. by rewrite Hx, Hl.
Qed.

Lemma Result_mapM_Throw {A B} (f : A → Result B) (l : list A) (e : string) :
  mapM f l = Throw e → ∃ x, x ∈ l ∧ f x = Throw e.
Proof.
  induction l as [|x l IH]; [done|].
  rewrite mapM_cons.
  destruct (f x) as [y|e'] eqn:Ex.
  - destruct (mapM f l) as [k'|e'] eqn:El; [done|].
    intros [= ->]. destruct IH as (z & Hz & Hf); [done|].
    exists z. split; [by right | done].
  - intros [= ->]. exists x. split; [by left | done].
Qed.

Lemma Result_mapM_fails {A B} (f : A → Result B) (l : list A) (x : A) :
  x ∈ l → isOk (f x) = false → isOk (mapM f l) = false.
Proof.
  intros Hin Hx. destruct (mapM f l) as [k|e] eqn:E; [|done].
  apply Result_mapM_Ok in E.
  apply list_elem_of_lookup in Hin as [i Hi].
  destruct (Forall2_lookup_l _ _ _ _ _ E Hi) as (y & _ & Hy).
  by rewrite Hy in Hx.
Qed.

Lemma Result_mapM_isOk {A B} (f : A → Result B) (l : list A) :
  isOk (mapM f l) = true ↔ ∀ x, x ∈ l → isOk (f x) = true.
Proof.
  split.
  - intros H x Hx. destruct (isOk (f x)) eqn:E; [done|].
    by rewrite (Result_mapM_fails f l x Hx E) in H.
  - induction l as [|x l IH]; [done|]. intros H. rewrite mapM_cons.
    pose proof (H x (list_elem_of_here _ _)) as Hx.
    destruct (f x) as [y|]; [|done].
    assert (Hl : isOk (mapM f l) = true)
      by (apply IH; intros z Hz; apply H; by right).
    by destruct (mapM f l).
Qed.

Lemma Result_mapM_fmap {A B C} (g : A → B) (f : B → Result C) (l : list A) :
  mapM f (g <$> l) = mapM (f ∘ g) l.
Proof.
  induction l as [|x l IH]; [done|].
  by rewrite fmap_cons, !mapM_cons, IH.
Qed.

Lemma bind_cong {A B} (m m' : M A) (f g : A → M B) :
  m = m' → (∀ a, f a = g a) → m ≫= f = m' ≫= g.
Proof.
  intros <- Hfg. destruct m as [[a|e] t]; simpl; [|done]. by rewrite Hfg.
Qed.

Lemma bind_run {A B} (m : M A) (f : A → M B) :
  m ≫= f =
  match run_result m with
  | Ok a => (run_result (f a), trace m ++ trace (f a))
  | Throw e => (Throw e, trace m)
  end.
Proof.
  destruct m as [[a|e] t]; simpl; [|done]. by destruct (f a).
Qed.

(** ** [Promise.all] *)

Lemma first_rejected_None {A} (ps : list (Promise A)) :
  first_rejected ps = None ↔ ∀ p, p ∈ ps → isOk (outcome p) = true.
Proof.
  induction ps as [|p ps IH]; cbn [first_rejected].
  - split; [by intros _ p ?%elem_of_nil | done].
  - destruct (outcome p) as [a|e] eqn:E.
    + rewrite IH. split.
      * intros H q [->|Hq]%elem_of_cons; [by rewrite E | auto].
      * intros H q Hq. apply H. by right.
    + split.
      * destruct (first_rejected ps) as [[t' e']|]; [|done].
        by destruct (settled p <=? t')%nat.
      * intros H. specialize (H p (list_elem_of_here _ _)).
        by rewrite E in H.
Qed.

(** The member that rejects [Promise.all] is rejected, and no rejected
    member settles before it. *)
Lemma first_rejected_Some {A} (ps : list (Promise A)) (t : nat) (e : string) :
  first_rejected ps = Some (t, e) →
  (∃ p, p ∈ ps ∧ outcome p = Throw e ∧ settled p = t) ∧
  ∀ q, q ∈ ps → isOk (outcome q) = false → (t ≤ settled q)%nat.
Proof.
  revert t e; induction ps as [|p ps IH]; intros t e; [done|].
  cbn [first_rejected].
  destruct (outcome p) as [a|e0] eqn:E.
  - intros (Hex & Hmin)%IH. split.
    + destruct Hex as (q & Hq & Ho & Ht). exists q.
      split; [by right | done].
    + intros q [->|Hq]%elem_of_cons Hf; [by rewrite E in Hf | auto].
  - destruct (first_rejected ps) as [[t' e']|] eqn:Er.
    + destruct (IH t' e' eq_refl) as (Hex & Hmin).
      destruct (settled p <=? t')%nat eqn:Ele.
      * apply Nat.leb_le in Ele. intros [= <- <-]. split.
        { exists p. split; [by left | done]. }
        intros q [->|Hq]%elem_of_cons Hf; [done|].
        specialize (Hmin q Hq Hf). lia.
      * apply Nat.leb_gt in Ele. intros [= <- <-]. split.
        { destruct Hex as (q & Hq & Ho & Ht). exists q.
          split; [by right | done]. }
        intros q [->|Hq]%elem_of_cons Hf; [lia | auto].
    + intros [= <- <-]. split.
      { exists p. split; [by left | done]. }
      intros q [->|Hq]%elem_of_cons Hf; [done|].
      apply first_rejected_None with (p := q) in Er; [|done].
      by rewrite Er in Hf.
Qed.

Lemma pending_Promise_all {A} (ps : list (Promise A)) :
  pending (Promise_all ps) = concat (pending <$> ps).
Proof. unfold Promise_all. by destruct (first_rejected ps) as [[t e]|]. Qed.

(** What [Promise.all] is fulfilled with does not depend on the instants. *)
Lemma Promise_all_Ok {A} (ps : list (Promise A)) (v : list A) :
  outcome (Promise_all ps) = Ok v ↔ mapM outcome ps = Ok v.
Proof.
  unfold Promise_all.
  destruct (first_rejected ps) as [[t e]|] eqn:E; cbn [outcome]; [|done].
  split; [done|]. intros Hv.
  destruct (first_rejected_Some ps t e E) as ((p & Hp & Ho & _) & _).
  assert (Hok : isOk (mapM outcome ps) = true) by (by rewrite Hv).
  rewrite Result_mapM_isOk in Hok. specialize (Hok p Hp). by rewrite Ho in Hok.
Qed.

Lemma Promise_all_isOk {A} (ps : list (Promise A)) :
  isOk (outcome (Promise_all ps)) = true ↔
  ∀ p, p ∈ ps → isOk (outcome p) = true.
Proof.
  rewrite <- Result_mapM_isOk.
  destruct (outcome (Promise_all ps)) as [v|e] eqn:E.
  - apply Promise_all_Ok in E. by rewrite E.
  - split; [done|]. intros H. destruct (mapM outcome ps) as [v|] eqn:Ev; [|done].
    apply Promise_all_Ok in Ev. congruence.
Qed.

(** The reason of a rejected [Promise.all] is that of a member, and no
    rejected member settles before that one. *)
Lemma Promise_all_Throw {A} (ps : list (Promise A)) (e : string) :
  outcome (Promise_all ps) = Throw e →
  ∃ p, p ∈ ps ∧ outcome p = Throw e ∧
       ∀ q, q ∈ ps → isOk (outcome q) = false → (settled p ≤ settled q)%nat.
Proof.
  unfold Promise_all.
  destruct (first_rejected ps) as [[t e']|] eqn:E; cbn [outcome].
  - intros [= ->].
    destruct (first_rejected_Some ps t e E) as ((p & Hp & Ho & <-) & Hmin).
    by exists p.
  - intros Hm. pose proof (proj1 (first_rejected_None ps) E) as Hok.
    apply Result_mapM_isOk in Hok. by rewrite Hm in Hok.
Qed.

(** ** The code is the sequence of its four blocks *)

Section BlockFacts.

Variable env : Providers.

Lemma tokenCallback_run (u a : string) :
  tokenCallback env u a =
  (Ok (contractPromise env u a), Issued <$> contractRequests u a).
Proof. reflexivity. Qed.

Lemma dataPromises_run (u : string) (tokens : list string) :
  dataPromises env u tokens =
  (Ok (contractPromise env u <$> tokens), Issued <$> requests Avalanche u tokens).
Proof.
  unfold dataPromises. induction tokens as [|a tokens IH]; [reflexivity|].
  rewrite mapM_cons, tokenCallback_run, IH. simpl.
  by rewrite app_nil_r.
Qed.

Lemma pending_contractPromise (u a : string) :
  pending (contractPromise env u a) = contractRequests u a.
Proof.
  unfold contractPromise, Promise_then, Promise_all2. cbn [pending outcome settled].
  destruct (contract_balanceOf env a u), (contract_decimals env a);
    try reflexivity.
  by destruct (_ <=? _)%nat.
Qed.

(** The outcome of a contract's promise, from the two answers: when both
    requests fail, the reason is that of the one that fails first. *)
Lemma contractOutcome_answers (u a : string) :
  contractOutcome env u a =
  match contract_balanceOf env a u, contract_decimals env a with
  | Ok b, Ok d =>
      formatted ← Ethers.formatUnits b d;
      mret {| tokenAddress := a; tokenChain := Avalanche;
              balance := Js.Str formatted |}
  | Throw e, Ok _ => Throw e
  | Ok _, Throw e => Throw e
  | Throw e, Throw e' =>
      if (arrival env (BalanceOf a u) <=? arrival env (Decimals a))%nat
      then Throw e else Throw e'
  end.
Proof.
  unfold contractOutcome, contractPromise, Promise_then, Promise_all2.
  cbn [pending outcome settled].
  destruct (contract_balanceOf env a u), (contract_decimals env a);
    try reflexivity.
  by destruct (_ <=? _)%nat.
Qed.

Lemma pending_batchPromise (u : string) (tokens : list string) :
  pending (batchPromise env u tokens) = requests Avalanche u tokens.
Proof.
  unfold batchPromise. rewrite pending_Promise_all. cbn [requests].
  induction tokens as [|a tokens IH]; [reflexivity|].
  rewrite !fmap_cons. cbn [concat]. by rewrite IH, pending_contractPromise.
Qed.

(** The records of an Avalanche batch are those of its contracts, in
    order; the batch is fulfilled exactly when every contract is. *)
Lemma fetch_avalanche_Ok (u : string) (tokens : list string)
    (data : list AccountCurrentTokenBalance) :
  fetch env Avalanche u tokens = Ok data ↔
  mapM (contractOutcome env u) tokens = Ok data.
Proof.
  cbn [fetch]. unfold batchPromise.
  by rewrite Promise_all_Ok, Result_mapM_fmap.
Qed.

Lemma fetch_avalanche_isOk (u : string) (tokens : list string) :
  isOk (fetch env Avalanche u tokens) = true ↔
  ∀ a, a ∈ tokens → isOk (contractOutcome env u a) = true.
Proof.
  cbn [fetch]. unfold batchPromise. rewrite Promise_all_isOk. split.
  - intros H a Ha. apply (H (contractPromise env u a)).
    by apply list_elem_of_fmap_2.
  - intros H p (a & -> & Ha)%list_elem_of_fmap. by apply H.
Qed.

Lemma fetch_avalanche_fails (u : string) (tokens : list string) (a : string) :
  a ∈ tokens → isOk (contractOutcome env u a) = false →
  isOk (fetch env Avalanche u tokens) = false.
Proof.
  intros Ha Hf. destruct (isOk (fetch env Avalanche u tokens)) eqn:E; [|done].
  rewrite fetch_avalanche_isOk in E. by rewrite (E a Ha) in Hf.
Qed.

Lemma getAvalancheTokenBalances_run (u : string) (tokens : list string) :
  getAvalancheTokenBalances env u tokens =
  (Ok (batchPromise env u tokens), Issued <$> requests Avalanche u tokens).
Proof.
  unfold getAvalancheTokenBalances.
  rewrite dataPromises_run. simpl.
  by rewrite app_nil_r.
Qed.

(** One of the three Alchemy blocks, as written in [getTokenBalance]. *)
Lemma alchemy_block (c : Chain) (u : UserAddress) (tokens : list string)
    (result : list AccountCurrentTokenBalance) :
  c ≠ Avalanche →
  (if (0 <? length tokens)%nat then
     try_catch
       (tokenBalances_ ← await (getTokenBalances_call env (provider_of c) u tokens);
        data ← lift (processTokenBalancesResponse tokenBalances_ c);
        mret (result ++ data))
       (λ error, _ ← console_error error; throw invalid)
   else mret result)
  = block env c u tokens result.
Proof.
  intros Hc. destruct tokens as [|a tokens]; [reflexivity|].
  unfold block, blockTrace.
  assert (Hf : fetch env c u (a :: tokens) =
               core_getTokenBalances env (provider_of c) u (a :: tokens)
                 ≫= λ response, processTokenBalancesResponse response c)
    by (by destruct c).
  assert (Hr : requests c u (a :: tokens) =
               [GetTokenBalances (provider_of c) u (a :: tokens)])
    by (by destruct c).
  rewrite Hf, Hr. cbn [length Nat.ltb Nat.leb].
  unfold getTokenBalances_call, await, issue. simpl.
  destruct (core_getTokenBalances env (provider_of c) u (a :: tokens))
    as [response|e]; simpl; [|reflexivity].
  destruct (processTokenBalancesResponse response c); reflexivity.
Qed.

(** The Avalanche block, as written in [getTokenBalance]. *)
Lemma avalanche_block (u : UserAddress) (tokens : list string)
    (result : list AccountCurrentTokenBalance) :
  (if (0 <? length tokens)%nat then
     try_catch
       (data ← await (getAvalancheTokenBalances env u tokens);
        mret (result ++ data))
       (λ error, _ ← console_error error; throw invalid)
   else mret result)
  = block env Avalanche u tokens result.
Proof.
  destruct tokens as [|a tokens]; [reflexivity|].
  unfold block, blockTrace. cbn [length Nat.ltb Nat.leb].
  unfold await. rewrite getAvalancheTokenBalances_run.
  cbn [mbind M_bind]. rewrite pending_batchPromise.
  change (outcome (batchPromise env u (a :: tokens)))
    with (fetch env Avalanche u (a :: tokens)).
  generalize (requests Avalanche u (a :: tokens)) as rs.
  generalize (fetch env Avalanche u (a :: tokens)) as r.
  intros [data|e] rs; simpl; by rewrite <- ?app_assoc.
Qed.

Lemma getTokenBalance_blocks (u : UserAddress) (l : list TokenContractAddress) :
  getTokenBalance env u l = blocks env supportedChains u l [].
Proof.
  unfold getTokenBalance, supportedChains. cbn [blocks].
  apply bind_cong; [by apply (alchemy_block Ethereum) | intros r1].
  apply bind_cong; [by apply (alchemy_block Arbitrum) | intros r2].
  apply bind_cong; [by apply (alchemy_block Optimism) | intros r3].
  apply bind_cong; [by apply avalanche_block | done].
Qed.

End BlockFacts.

(** ** What the sequence of blocks returns *)

Section BlocksResult.

Variable env : Providers.

Lemma block_result (c : Chain) (u : string) (l : list TokenContractAddress)
    (res : list AccountCurrentTokenBalance) :
  run_result (block env c u (tokensOf c l) res) =
  match batch env c u l with
  | Ok data => Ok (res ++ data)
  | Throw _ => Throw invalid
  end.
Proof.
  unfold batch, block. destruct (tokensOf c l); simpl; [|done].
  by rewrite app_nil_r.
Qed.

Lemma blocks_result (cs : list Chain) (u : string)
    (l : list TokenContractAddress) (res : list AccountCurrentTokenBalance) :
  run_result (blocks env cs u l res) =
  match mapM (λ c, batch env c u l) cs with
  | Ok ds => Ok (res ++ concat ds)
  | Throw _ => Throw invalid
  end.
Proof.
  revert res; induction cs as [|c cs IH]; intros res.
  - simpl. by rewrite app_nil_r.
  - cbn [blocks]. rewrite bind_run, block_result, mapM_cons.
    destruct (batch env c u l) as [data|e]; [|done].
    cbn [run_result fst]. rewrite IH.
    change (Ok data ≫= ?f) with (f data).
    destruct (mapM (λ c, batch env c u l) cs) as [ds|e]; [|done].
    simpl. by rewrite app_assoc.
Qed.

(** A successful call returns the four batches, in the order of the
    blocks. *)
Lemma getTokenBalance_Ok (u : string) (l : list TokenContractAddress)
    (out : list AccountCurrentTokenBalance) :
  run_result (getTokenBalance env u l) = Ok out ↔
  ∃ e a o v,
    batch env Ethereum u l = Ok e ∧ batch env Arbitrum u l = Ok a ∧
    batch env Optimism u l = Ok o ∧ batch env Avalanche u l = Ok v ∧
    out = e ++ a ++ o ++ v.
Proof.
  rewrite getTokenBalance_blocks, blocks_result. unfold supportedChains.
  rewrite !mapM_cons.
  split.
  - destruct (batch env Ethereum u l) as [e|]; [|done].
    destruct (batch env Arbitrum u l) as [a|]; [|done].
    destruct (batch env Optimism u l) as [o|]; [|done].
    destruct (batch env Avalanche u l) as [v|]; [|done].
    simpl. intros [= <-]. exists e, a, o, v. by rewrite app_nil_r.
  - intros (e & a & o & v & -> & -> & -> & -> & ->). simpl.
    by rewrite app_nil_r.
Qed.

(** Any failure is the generic one. *)
Lemma getTokenBalance_Throw (u : string) (l : list TokenContractAddress)
    (message : string) :
  run_result (getTokenBalance env u l) = Throw message → message = invalid.
Proof.
  rewrite getTokenBalance_blocks, blocks_result.
  destruct (mapM _ _); [done|]. by intros [= <-].
Qed.

Lemma getTokenBalance_fails (u : string) (l : list TokenContractAddress)
    (c : Chain) :
  isOk (batch env c u l) = false →
  run_result (getTokenBalance env u l) = Throw invalid.
Proof.
  intros Hc. rewrite getTokenBalance_blocks, blocks_result.
  assert (Hin : c ∈ supportedChains)
    by (destruct c; unfold supportedChains; repeat constructor).
  pose proof (Result_mapM_fails (λ c, batch env c u l) _ c Hin Hc) as H.
  by destruct (mapM _ _).
Qed.

(** A failing call has written the cause of the failing batch to the
    console, last thing. *)
Lemma blocks_failure_logged (cs : list Chain) (u : string)
    (l : list TokenContractAddress) (res : list AccountCurrentTokenBalance) :
  isOk (run_result (blocks env cs u l res)) = false →
  ∃ t c cause,
    batch env c u l = Throw cause ∧
    trace (blocks env cs u l res) = t ++ [ConsoleError cause].
Proof.
  revert res; induction cs as [|c cs IH]; intros res; [done|].
  cbn [blocks]. rewrite bind_run.
  destruct (run_result (block env c u (tokensOf c l) res)) as [r|e] eqn:E.
  - cbn [run_result trace fst snd]. intros H.
    destruct (IH r H) as (t & c' & cause & Hc' & ->).
    exists (trace (block env c u (tokensOf c l) res) ++ t), c', cause.
    by rewrite app_assoc.
  - intros _. cbn [trace snd]. revert E. unfold block, blockTrace, batch.
    destruct (tokensOf c l) as [|a toks] eqn:Et; [done|].
    destruct (fetch env c u (a :: toks)) as [d|cause] eqn:Ef; [done|].
    intros _. cbn [trace snd].
    exists ((Issued <$> requests c u (a :: toks))
            ++ [Awaited (requests c u (a :: toks))]), c, cause.
    rewrite Et, Ef, <- app_assoc. done.
Qed.

End BlocksResult.

(** ** The records of one batch *)

Lemma processTokenBalancesResponse_Normalized (response : TokenBalancesResponse)
    (c : Chain) :
  ∃ out, processTokenBalancesResponse response c = Ok out ∧
         Normalized c (tokenBalances response) out.
Proof.
  unfold processTokenBalancesResponse.
  induction (tokenBalances response) as [|tb l (out & IH & HN)].
  - exists []. split; [reflexivity | constructor].
  - rewrite filter_cons. destruct (tokenBalance tb) as [raw|] eqn:E.
    + rewrite decide_True by done.
      rewrite mapM_cons, E, IH. eexists. split; [reflexivity|].
      by apply Normalized_keep.
    + rewrite decide_False by (by intros H; apply H).
      exists out. split; [done|]. by apply Normalized_null.
Qed.

Lemma Normalized_chain (c : Chain) (l : list TokenBalance)
    (out : list AccountCurrentTokenBalance) :
  Normalized c l out → Forall (λ r, tokenChain r = c) out.
Proof. induction 1; auto. Qed.

Lemma Normalized_number (c : Chain) (l : list TokenBalance)
    (out : list AccountCurrentTokenBalance) :
  Normalized c l out → Forall (λ r, Js.typeof (balance r) = "number") out.
Proof. induction 1; auto. Qed.

Lemma Normalized_addresses (c : Chain) (l : list TokenBalance)
    (out : list AccountCurrentTokenBalance) :
  Normalized c l out →
  tokenAddress <$> out =
  contractAddress <$> filter (λ tb, tokenBalance tb ≠ None) l.
Proof.
  induction 1 as [|tb l out E _ IH|tb raw l out E _ IH]; [done| |].
  - rewrite filter_cons, decide_False; [done|]. by intros H; apply H.
  - rewrite filter_cons, decide_True by (by rewrite E).
    rewrite !fmap_cons, IH. reflexivity.
Qed.

Lemma Normalized_functional (c : Chain) (l : list TokenBalance)
    (out out' : list AccountCurrentTokenBalance) :
  Normalized c l out → Normalized c l out' → out = out'.
Proof.
  intros H; revert out'; induction H; inversion 1; subst;
    try congruence; auto.
  f_equal; [congruence | auto].
Qed.

Section BatchFacts.

Variable env : Providers.

Lemma fetch_alchemy (c : Chain) (u : string) (tokens : list string)
    (data : list AccountCurrentTokenBalance) :
  c ≠ Avalanche →
  fetch env c u tokens = Ok data →
  ∃ response,
    core_getTokenBalances env (provider_of c) u tokens = Ok response ∧
    Normalized c (tokenBalances response) data.
Proof.
  intros Hc. assert (E : fetch env c u tokens =
    core_getTokenBalances env (provider_of c) u tokens
      ≫= λ response, processTokenBalancesResponse response c)
    by (by destruct c). rewrite E.
  destruct (core_getTokenBalances env (provider_of c) u tokens)
    as [response|]; [|done].
  change (Ok response ≫= ?f) with (f response).
  destruct (processTokenBalancesResponse_Normalized response c)
    as (out & -> & HN).
  intros [= <-]. by exists response.
Qed.

Lemma contractOutcome_Ok (u a : string) (r : AccountCurrentTokenBalance) :
  contractOutcome env u a = Ok r →
  ∃ formatted,
    r = {| tokenAddress := a; tokenChain := Avalanche;
           balance := Js.Str formatted |}.
Proof.
  rewrite contractOutcome_answers.
  destruct (contract_balanceOf env a u) as [b|];
    destruct (contract_decimals env a) as [d|];
    try done; [|by destruct (_ <=? _)%nat].
  cbn -[Ethers.formatUnits].
  destruct (Ethers.formatUnits b d) as [s|]; [|done].
  intros [= <-]. by exists s.
Qed.

Lemma fetch_avalanche (u : string) (tokens : list string)
    (data : list AccountCurrentTokenBalance) :
  fetch env Avalanche u tokens = Ok data →
  Forall2 (λ a r, ∃ formatted,
      r = {| tokenAddress := a; tokenChain := Avalanche;
             balance := Js.Str formatted |}) tokens data.
Proof.
  rewrite fetch_avalanche_Ok, Result_mapM_Ok. intros H.
  eapply Forall2_impl; [exact H|]. intros a r. apply contractOutcome_Ok.
Qed.

(** Every record of a batch carries the chain of the batch. *)
Lemma fetch_chain (c : Chain) (u : string) (tokens : list string)
    (data : list AccountCurrentTokenBalance) :
  fetch env c u tokens = Ok data → Forall (λ r, tokenChain r = c) data.
Proof.
  destruct (decide (c = Avalanche)) as [-> | Hc].
  - intros H%fetch_avalanche. induction H as [|? ? ? ? [s ->]]; auto.
  - intros (response & _ & HN)%fetch_alchemy; [|done].
    by eapply Normalized_chain.
Qed.

Lemma batch_chain (c : Chain) (u : string) (l : list TokenContractAddress)
    (data : list AccountCurrentTokenBalance) :
  batch env c u l = Ok data → Forall (λ r, tokenChain r = c) data.
Proof.
  unfold batch. destruct (tokensOf c l) as [|a toks].
  - intros [= <-]. constructor.
  - apply fetch_chain.
Qed.

End BatchFacts.

(** ** Response normalization *)

(** C2: for every raw provider response and chain, an entry whose raw
    balance is null is left out of the normalized sequence (it is dropped,
    not turned into a zero), every entry that stays is tagged with the given
    chain, and the entries that stay are in the order of the response. *)
Theorem processTokenBalancesResponse_drops_null
    (response : TokenBalancesResponse) (c : Chain) :
  ∃ out,
    processTokenBalancesResponse response c = Ok out ∧
    Normalized c (tokenBalances response) out ∧
    Forall (λ r, tokenChain r = c) out ∧
    tokenAddress <$> out =
      contractAddress
        <$> filter (λ tb, tokenBalance tb ≠ None) (tokenBalances response) ∧
    length out =
      length (filter (λ tb, tokenBalance tb ≠ None) (tokenBalances response)).
Proof.
  destruct (processTokenBalancesResponse_Normalized response c)
    as (out & Hout & HN).
  exists out. split; [done|]. split; [done|].
  split; [by eapply Normalized_chain|].
  pose proof (Normalized_addresses _ _ _ HN) as Ha.
  split; [done|].
  apply (f_equal length) in Ha. by rewrite !length_fmap in Ha.
Qed.

(** ** Failure of a chain *)

Lemma contractOutcome_fails (env : Providers) (u a : string) :
  isOk (contract_balanceOf env a u) = false ∨
  isOk (contract_decimals env a) = false →
  isOk (contractOutcome env u a) = false.
Proof.
  intros Hf. rewrite contractOutcome_answers.
  destruct (contract_balanceOf env a u) as [b|];
    destruct (contract_decimals env a) as [d|]; try done.
  - by destruct Hf.
  - by destruct (_ <=? _)%nat.
Qed.

Lemma provider_call_fails_batch (env : Providers) (c : Chain) (u : string)
    (l : list TokenContractAddress) :
  provider_call_fails env c u l → isOk (batch env c u l) = false.
Proof.
  unfold provider_call_fails, batch. destruct c.
  1-3: intros [Hne Hf]; destruct (tokensOf _ l) as [|a toks]; [done|];
       cbn [fetch]; by destruct (core_getTokenBalances env _ u (a :: toks)).
  intros (a & Hin & Hf).
  destruct (tokensOf Avalanche l) as [|a' toks] eqn:E.
  { by apply elem_of_nil in Hin. }
  apply (fetch_avalanche_fails _ _ _ a Hin).
  by apply contractOutcome_fails.
Qed.

(** ** Grouping by chain *)

(** C10: for every successful call, the output of [getTokenBalance] is
    grouped by chain in the fixed order Ethereum, Arbitrum, Optimism,
    Avalanche, whatever the order of the chains in the input. *)
Theorem getTokenBalance_grouped_by_chain (env : Providers) (u : UserAddress)
    (l : list TokenContractAddress) (out : list AccountCurrentTokenBalance) :
  run_result (getTokenBalance env u l) = Ok out →
  ∃ e a o v,
    out = e ++ a ++ o ++ v ∧
    Forall (λ r, tokenChain r = Ethereum) e ∧
    Forall (λ r, tokenChain r = Arbitrum) a ∧
    Forall (λ r, tokenChain r = Optimism) o ∧
    Forall (λ r, tokenChain r = Avalanche) v.
Proof.
  intros (e & a & o & v & He & Ha & Ho & Hv & ->)%getTokenBalance_Ok.
  exists e, a, o, v.
  repeat split; [by eapply batch_chain ..].
Qed.

Lemma getTokenBalance_grouped_by_chain_witness :
  ∃ out e a o v,
    run_result
      (getTokenBalance (sample (10 ^ 18)) "0xUser"
         [ {| address := "0xD"; chain := Avalanche |};
           {| address := "0xC"; chain := Optimism |};
           {| address := "0xA"; chain := Ethereum |};
           {| address := "0xB"; chain := Arbitrum |};
           {| address := "0xE"; chain := Ethereum |} ]) = Ok out ∧
    out = e ++ a ++ o ++ v ∧
    tokenAddress <$> out = ["0xA"; "0xE"; "0xB"; "0xC"; "0xD"] ∧
    Forall (λ r, tokenChain r = Ethereum) e ∧
    Forall (λ r, tokenChain r = Arbitrum) a ∧
    Forall (λ r, tokenChain r = Optimism) o ∧
    Forall (λ r, tokenChain r = Avalanche) v.
Proof.
  eexists.
  edestruct (getTokenBalance_grouped_by_chain (sample (10 ^ 18)) "0xUser"
         [ {| address := "0xD"; chain := Avalanche |};
           {| address := "0xC"; chain := Optimism |};
           {| address := "0xA"; chain := Ethereum |};
           {| address := "0xB"; chain := Arbitrum |};
           {| address := "0xE"; chain := Ethereum |} ])
    as (e & a & o & v & Hout & He & Ha & Ho & Hv).
  - vm_compute. reflexivity.
  - exists e, a, o, v. repeat split; try done.
Defined.

(** ** Decimal conversion *)

(** C9: a smallest-unit balance of 1000000000000000000 converts, with 18
    digits, to exactly 1 in the token path
    ([processTokenBalancesResponse]) and to the string ['1.00000'] in the
    native-balance path ([getBalance]). *)
Theorem unit_conversion (a u : string) (c : Chain) :
  (∃ x,
     processTokenBalancesResponse
       {| tokenBalances :=
            [ {| contractAddress := a;
                 tokenBalance := Some 1000000000000000000 |} ] |} c
     = Ok [ {| tokenAddress := a; tokenChain := c; balance := Js.Num x |} ] ∧
     Js.represents x 1 = true) ∧
  run_result (getBalance (sample 1000000000000000000) u)
  = Ok {| eth := "1.00000"; arb := "1.00000";
          op := "1.00000"; avax := "1.00000" |}.
Proof.
  split.
  - eexists. split; [vm_compute; reflexivity | reflexivity].
  - vm_compute. reflexivity.
Qed.

(** ** The type of the balance field *)

(** C5 does not hold on the Avalanche path: the record built by
    [getAvalancheTokenBalances] stores the string that [formatUnits]
    returns.  One Avalanche token with a balance of [10^18] and 18 decimals
    yields the balance ["1.0"], a string, where the Alchemy chains yield the
    number 1. *)
Theorem avalanche_balance_is_a_string (u : string) :
  run_result
    (getTokenBalance (sample (10 ^ 18)) u
       [ {| address := "0xB"; chain := Avalanche |} ])
  = Ok [ {| tokenAddress := "0xB"; tokenChain := Avalanche;
            balance := Js.Str "1.0" |} ] ∧
  Js.typeof (Js.Str "1.0") = "string".
Proof. split; vm_compute; reflexivity. Qed.

(** Which chains the defect touches: the balance is a number on the three
    Alchemy chains and a string on Avalanche, for every successful call. *)
Lemma balance_type (env : Providers) (u : UserAddress)
    (l : list TokenContractAddress) (out : list AccountCurrentTokenBalance) :
  run_result (getTokenBalance env u l) = Ok out →
  Forall (λ r, Js.typeof (balance r) =
               if decide (tokenChain r = Avalanche) then "string"
               else "number") out.
Proof.
  intros (e & a & o & v & He & Ha & Ho & Hv & ->)%getTokenBalance_Ok.
  assert (Halchemy : ∀ c d, c ≠ Avalanche → batch env c u l = Ok d →
    Forall (λ r, Js.typeof (balance r) =
                 if decide (tokenChain r = Avalanche) then "string"
                 else "number") d).
  { intros c d Hc. unfold batch. destruct (tokensOf c l) as [|x toks].
    { intros [= <-]. constructor. }
    intros (response & _ & HN)%fetch_alchemy; [|done].
    pose proof (Normalized_chain _ _ _ HN) as H1.
    pose proof (Normalized_number _ _ _ HN) as H2.
    rewrite Forall_forall in *. intros r Hr.
    rewrite (H1 r Hr), decide_False by done. auto. }
  rewrite !Forall_app.
  repeat split;
    [by apply (Halchemy Ethereum) | by apply (Halchemy Arbitrum)
    | by apply (Halchemy Optimism) |].
  revert Hv. unfold batch. destruct (tokensOf Avalanche l) as [|x toks].
  { intros [= <-]. constructor. }
  intros H%fetch_avalanche.
  induction H as [|? ? ? ? [s ->]]; constructor; auto.
Qed.

(** ** Native balances *)

(** C3, as amended: when the four balance queries succeed and each balance,
    converted to whole units, is a number below [10^21], [getBalance]
    returns exactly four entries (eth, arb, op, avax), each a decimal string
    with exactly 5 fraction digits. *)
Theorem getBalance_five_fraction_digits (env : Providers) (u : UserAddress) :
  (∀ p, ∃ b, core_getBalance env p u = Ok b ∧
             Js.below_1e21 (Js.parseFloat (Ethers.formatEther b)) = true) →
  ∃ r,
    run_result (getBalance env u) = Ok r ∧
    fst <$> entries r = ["eth"; "arb"; "op"; "avax"] ∧
    Forall (λ kv, Js.is_fixed_decimal 5 (snd kv) = true) (entries r).
Proof.
  intros H.
  destruct (H alchemyEthereum) as (b1 & E1 & H1).
  destruct (H alchemyArbitrum) as (b2 & E2 & H2).
  destruct (H alchemyOptimism) as (b3 & E3 & H3).
  destruct (H providerAvalanche) as (b4 & E4 & H4).
  unfold getBalance, getBalance_call, await, issue.
  rewrite E1, E2, E3, E4.
  eexists. split; [reflexivity|]. split; [reflexivity|].
  repeat constructor; cbn [snd eth arb op avax];
    apply JsFacts.toFixed_fixed; (lia || assumption).
Qed.

(** Balances of one smallest unit, of the whole supply of a chain (some
    [1.2 * 10^26] smallest units) and of [10^38] smallest units all convert
    to numbers below [10^21]. *)
Example balances_below_1e21 :
  Forall (λ b, Js.below_1e21 (Js.parseFloat (Ethers.formatEther b)) = true)
    [0; 1; 10 ^ 18; 120000000 * 10 ^ 18; 10 ^ 38].
Proof. repeat constructor. Qed.

(** The same at a balance of zero: every entry is ["0.00000"]. *)
Lemma getBalance_five_fraction_digits_witness :
  ∃ r,
    run_result (getBalance (sample 0) "0xUser") = Ok r ∧
    fst <$> entries r = ["eth"; "arb"; "op"; "avax"] ∧
    Forall (λ kv, Js.is_fixed_decimal 5 (snd kv) = true) (entries r).
Proof.
  apply getBalance_five_fraction_digits.
  intros p. exists 0. split; reflexivity.
Defined.

Lemma getBalance_zero :
  run_result (getBalance (sample 0) "0xUser")
  = Ok {| eth := "0.00000"; arb := "0.00000";
          op := "0.00000"; avax := "0.00000" |}.
Proof. vm_compute. reflexivity. Qed.

(** C3 as stated fails: with a balance of [10^39] smallest units, that is
    [10^21] whole units, [toFixed(5)] answers in exponent notation and the
    entry has no fraction digit at all. *)
Lemma getBalance_exponent_notation :
  ∃ r,
    run_result (getBalance (sample (10 ^ 39)) "0xUser") = Ok r ∧
    eth r = "1e+21" ∧
    Js.is_fixed_decimal 5 (eth r) = false.
Proof. eexists. split; [vm_compute; reflexivity|]. split; reflexivity. Qed.

(** ** The chain router *)

Lemma tokensOf_retagged (c : Chain) (l : list TokenContractAddress) :
  (λ a, {| address := a; chain := c |}) <$> tokensOf c l =
  filter (λ x, chain x = c) l.
Proof.
  unfold tokensOf. induction l as [|[a c'] l IH]; [done|].
  rewrite filter_cons. cbn [chain]. case_decide as Hc; [|done].
  rewrite !fmap_cons, IH. cbn [address]. by rewrite Hc.
Qed.

Lemma partition_Permutation (l : list TokenContractAddress) :
  filter (λ x, chain x = Ethereum) l ++ filter (λ x, chain x = Arbitrum) l
  ++ filter (λ x, chain x = Optimism) l ++ filter (λ x, chain x = Avalanche) l
  ≡ₚ l.
Proof.
  induction l as [|[a c] l IH]; [done|].
  rewrite !filter_cons. cbn [chain].
  destruct c; repeat (case_decide; try done); simplify_eq; cbn [app].
  - by rewrite IH.
  - rewrite <- Permutation_middle. by rewrite IH.
  - rewrite app_assoc, <- Permutation_middle, <- app_assoc. by rewrite IH.
  - rewrite !app_assoc, <- Permutation_middle, <- !app_assoc. by rewrite IH.
Qed.

Lemma occurrences_submseteq `{EqDecision A} (x : A) (l1 l2 : list A) :
  l1 ⊆+ l2 → (occurrences x l1 ≤ occurrences x l2)%nat.
Proof.
  unfold occurrences. induction 1; rewrite ?filter_cons;
    repeat case_decide; cbn [length]; try lia.
Qed.

Lemma occurrences_filter `{EqDecision A} (P : A → Prop)
    `{∀ x, Decision (P x)} (x : A) (l : list A) :
  P x → occurrences x (filter P l) = occurrences x l.
Proof.
  intros Hx. unfold occurrences. induction l as [|y l IH]; [done|].
  rewrite (filter_cons P). destruct (decide (P y)) as [Hy|Hy].
  - rewrite !filter_cons. case_decide; cbn [length]; by rewrite IH.
  - rewrite filter_cons, decide_False; [done|]. by intros ->.
Qed.

Lemma occurrences_elem_of `{EqDecision A} (x : A) (l : list A) :
  x ∈ l ↔ (0 < occurrences x l)%nat.
Proof.
  unfold occurrences. induction l as [|y l IH].
  - split; [by intros ?%elem_of_nil | cbn; lia].
  - rewrite filter_cons, elem_of_cons. case_decide; cbn [length].
    + split; [lia | intros _; left; congruence].
    + rewrite <- IH. split; [intros [->|]; done | by right].
Qed.

Section References.

Variable env : Providers.
Hypothesis Hasked : answers_as_asked env.

Lemma Normalized_references (c : Chain) (tbs : list TokenBalance)
    (data : list AccountCurrentTokenBalance) :
  Normalized c tbs data →
  reference <$> data `sublist_of`
  (λ a, {| address := a; chain := c |}) <$> (contractAddress <$> tbs).
Proof.
  induction 1; rewrite ?fmap_cons.
  - constructor.
  - by apply sublist_cons.
  - by apply sublist_skip.
Qed.



End References.

Lemma answers_as_asked_within (env : Providers) :
  answers_as_asked env → answers_within env.
Proof.
  intros H p u tokens response Hr. by rewrite (H p u tokens response Hr).
Qed.

Section ReferencesWithin.

Variable env : Providers.
Hypothesis Hwithin : answers_within env.

Lemma batch_references_within (c : Chain) (u : string)
    (l : list TokenContractAddress) (data : list AccountCurrentTokenBalance) :
  batch env c u l = Ok data →
  reference <$> data ⊆+ filter (λ x, chain x = c) l.
Proof.
  rewrite <- tokensOf_retagged. unfold batch.
  destruct (tokensOf c l) as [|a toks] eqn:E.
  { intros [= <-]. constructor. }
  rewrite <- E. clear E. generalize (tokensOf c l) as tokens. intros tokens.
  destruct (decide (c = Avalanche)) as [-> | Hc].
  - intros H%fetch_avalanche. apply sublist_submseteq.
    induction H as [|? ? ? ? [s ->]]; [constructor|].
    rewrite !fmap_cons. by apply sublist_skip.
  - intros (response & Hr & HN)%fetch_alchemy; [|done].
    etransitivity.
    + apply sublist_submseteq, (Normalized_references c). exact HN.
    + apply fmap_submseteq. by eapply Hwithin.
Qed.

Lemma getTokenBalance_references_within (u : string)
    (l : list TokenContractAddress) (out : list AccountCurrentTokenBalance) :
  run_result (getTokenBalance env u l) = Ok out → reference <$> out ⊆+ l.
Proof.
  intros (e & a & o & v & He & Ha & Ho & Hv & ->)%getTokenBalance_Ok.
  etransitivity; [|apply Permutation_submseteq, partition_Permutation].
  rewrite !fmap_app.
  repeat apply submseteq_app; by apply (batch_references_within _ u).
Qed.

End ReferencesWithin.

(** C7 as stated fails: on an Alchemy chain the address of a record is the
    one the response holds, not the one asked for.  Asked about ["0xAA"], a
    provider that answers for ["0xaa"] and for ["0xOther"] puts two
    references into the output, neither of which is in the input. *)
Lemma getTokenBalance_reference_not_from_input :
  ∃ out,
    run_result
      (getTokenBalance relabelling "0xUser"
         [ {| address := "0xAA"; chain := Ethereum |} ]) = Ok out ∧
    reference <$> out =
      [ {| address := "0xaa"; chain := Ethereum |};
        {| address := "0xOther"; chain := Ethereum |} ] ∧
    ¬ (∀ r, r ∈ out → reference r ∈
          [ {| address := "0xAA"; chain := Ethereum |} ]).
Proof.
  eexists. split; [vm_compute; reflexivity|]. split; [reflexivity|].
  intros H.
  specialize (H _ (list_elem_of_here _ _)).
  apply list_elem_of_singleton in H. discriminate H.
Qed.

(** C7, as amended: for every token reference sequence, with batch
    providers that answer within what they were asked (the addresses of a
    response are among the addresses requested, none more often than
    requested), the output of [getTokenBalance] has no entry whose
    (address, chain) reference is not in the input, and no reference occurs
    more often in the output than in the input: two output entries share a
    pair only if the input has the pair twice. *)
Theorem getTokenBalance_references_from_input (env : Providers)
    (u : UserAddress) (l : list TokenContractAddress)
    (out : list AccountCurrentTokenBalance) :
  answers_within env →
  run_result (getTokenBalance env u l) = Ok out →
  (∀ r, r ∈ out → reference r ∈ l) ∧
  (∀ x, (occurrences x (reference <$> out) ≤ occurrences x l)%nat).
Proof.
  intros Hwithin Hout.
  pose proof (getTokenBalance_references_within env Hwithin u l out Hout)
    as Hsub.
  split.
  - intros r Hr. eapply elem_of_submseteq; [|exact Hsub].
    by apply list_elem_of_fmap_2.
  - intros x. by apply occurrences_submseteq.
Qed.

Lemma sample_answers_as_asked (b : Z) : answers_as_asked (sample b).
Proof.
  intros p u tokens response [= <-]. cbn [tokenBalances].
  rewrite <- list_fmap_compose. by rewrite list_fmap_id.
Qed.

Lemma getTokenBalance_references_from_input_witness :
  ∃ out,
    run_result
      (getTokenBalance (sample (10 ^ 18)) "0xUser"
         [ {| address := "0xA"; chain := Ethereum |};
           {| address := "0xA"; chain := Avalanche |};
           {| address := "0xNull"; chain := Ethereum |};
           {| address := "0xA"; chain := Ethereum |} ]) = Ok out ∧
    reference <$> out =
      [ {| address := "0xA"; chain := Ethereum |};
        {| address := "0xA"; chain := Ethereum |};
        {| address := "0xA"; chain := Avalanche |} ] ∧
    (∀ r, r ∈ out → reference r ∈
         [ {| address := "0xA"; chain := Ethereum |};
           {| address := "0xA"; chain := Avalanche |};
           {| address := "0xNull"; chain := Ethereum |};
           {| address := "0xA"; chain := Ethereum |} ]) ∧
    (∀ x, (occurrences x (reference <$> out) ≤ occurrences x
         [ {| address := "0xA"; chain := Ethereum |};
           {| address := "0xA"; chain := Avalanche |};
           {| address := "0xNull"; chain := Ethereum |};
           {| address := "0xA"; chain := Ethereum |} ])%nat).
Proof.
  eexists. split; [vm_compute; reflexivity|]. split; [reflexivity|].
  apply (getTokenBalance_references_from_input (sample (10 ^ 18)) "0xUser").
  - apply answers_as_asked_within, sample_answers_as_asked.
  - vm_compute. reflexivity.
Defined.

(** ** The requests of a call *)

Lemma requests_chain (c : Chain) (u : string) (tokens : list string) :
  Forall (λ r, request_chain r = c) (requests c u tokens).
Proof.
  destruct c; cbn [requests]; try (by repeat constructor).
  induction tokens as [|a tokens IH]; [constructor|].
  cbn. by repeat constructor.
Qed.

Section TraceFacts.

Variable env : Providers.

Lemma block_issued (c : Chain) (u : string) (tokens : list string)
    (res : list AccountCurrentTokenBalance) (r : Request) :
  Issued r ∈ trace (block env c u tokens res) →
  tokens ≠ [] ∧ request_chain r = c.
Proof.
  unfold block. destruct tokens as [|a toks]; cbn [trace snd].
  { by intros ?%elem_of_nil. }
  unfold blockTrace. rewrite elem_of_app, elem_of_cons.
  intros [Hin | [? | Hin]]; [| done |].
  - apply list_elem_of_fmap in Hin as (r' & [= <-] & Hr).
    split; [done|].
    pose proof (requests_chain c u (a :: toks)) as H.
    rewrite Forall_forall in H. by apply H.
  - destruct (fetch env c u (a :: toks)).
    + by apply elem_of_nil in Hin.
    + by apply list_elem_of_singleton in Hin.
Qed.

Lemma blocks_issued (cs : list Chain) (u : string)
    (l : list TokenContractAddress) (res : list AccountCurrentTokenBalance)
    (r : Request) :
  Issued r ∈ trace (blocks env cs u l res) →
  tokensOf (request_chain r) l ≠ [].
Proof.
  revert res; induction cs as [|c cs IH]; intros res.
  { by intros ?%elem_of_nil. }
  cbn [blocks]. rewrite bind_run.
  destruct (run_result (block env c u (tokensOf c l) res)) as [res'|e];
    cbn [trace snd]; rewrite ?elem_of_app.
  - intros [[Hne <-]%block_issued | H]; [done | by eapply IH].
  - by intros [Hne <-]%block_issued.
Qed.

Lemma Blockwise_app (t1 t2 : list Event) :
  Blockwise t1 → Blockwise t2 → Blockwise (t1 ++ t2).
Proof.
  induction 1; intros H2; [done| |].
  - rewrite <- app_assoc, <- app_comm_cons. apply (Blockwise_block c); auto.
  - rewrite <- app_comm_cons. apply Blockwise_log; auto.
Qed.

Lemma block_Blockwise (c : Chain) (u : string) (tokens : list string)
    (res : list AccountCurrentTokenBalance) :
  Blockwise (trace (block env c u tokens res)).
Proof.
  unfold block. destruct tokens as [|a toks]; cbn [trace snd]; [constructor|].
  unfold blockTrace. apply (Blockwise_block c); [apply requests_chain|].
  destruct (fetch env c u (a :: toks)); repeat constructor.
Qed.

Lemma blocks_Blockwise (cs : list Chain) (u : string)
    (l : list TokenContractAddress) (res : list AccountCurrentTokenBalance) :
  Blockwise (trace (blocks env cs u l res)).
Proof.
  revert res; induction cs as [|c cs IH]; intros res; [constructor|].
  cbn [blocks]. rewrite bind_run.
  destruct (run_result (block env c u (tokensOf c l) res)) as [res'|e] eqn:E;
    cbn [trace snd].
  - apply Blockwise_app; [apply block_Blockwise | apply IH].
  - apply block_Blockwise.
Qed.

Lemma getBalance_Blockwise (u : UserAddress) :
  Blockwise (trace (getBalance env u)).
Proof.
  unfold getBalance, getBalance_call, await, issue.
  assert (Hq : ∀ p t, Blockwise t →
    Blockwise (Issued (GetBalance p u) :: Awaited [GetBalance p u] :: t)).
  { intros p t Ht.
    apply (Blockwise_block (request_chain (GetBalance p u))
             [GetBalance p u] t); by repeat constructor. }
  destruct (core_getBalance env alchemyEthereum u);
    destruct (core_getBalance env alchemyArbitrum u);
    destruct (core_getBalance env alchemyOptimism u);
    destruct (core_getBalance env providerAvalanche u);
    cbn; repeat apply Hq; constructor.
Qed.

End TraceFacts.

Lemma in_turn_issue (c : Chain) (rs o : list Request) (t : list Event) :
  Forall (λ r, request_chain r = c) rs →
  Forall (λ r, request_chain r = c) o →
  in_turn o ((Issued <$> rs) ++ t) = in_turn (rev rs ++ o) t.
Proof.
  intros Hrs; revert o; induction Hrs as [|r rs Hr _ IH]; intros o Ho; [done|].
  rewrite fmap_cons. cbn [app in_turn rev].
  assert (E : forallb (λ r', bool_decide (request_chain r' = request_chain r))
                o = true).
  { apply forallb_forall. intros r' Hin%list_elem_of_In.
    rewrite Forall_forall in Ho. apply bool_decide_eq_true.
    by rewrite (Ho r' Hin). }
  rewrite E, IH by (by constructor). cbn [andb].
  by rewrite <- app_assoc.
Qed.

Lemma filter_none {A} (P : A → Prop) `{∀ x, Decision (P x)} (l : list A) :
  Forall (λ x, ¬ P x) l → filter P l = [].
Proof.
  induction 1 as [|x l Hx _ IH]; [done|].
  by rewrite filter_cons, decide_False.
Qed.

Lemma filter_awaited (rs : list Request) :
  filter (λ r', r' ∉ rs) (rev rs ++ []) = [].
Proof.
  rewrite app_nil_r. apply filter_none, Forall_forall.
  intros r Hin Hnot. apply Hnot.
  apply list_elem_of_In, in_rev. by apply list_elem_of_In.
Qed.

Lemma Blockwise_in_turn (t : list Event) : Blockwise t → in_turn [] t = true.
Proof.
  induction 1 as [|c rs t Hrs _ IH|cause t _ IH]; [done| |done].
  rewrite (in_turn_issue c) by done. cbn [in_turn].
  by rewrite filter_awaited.
Qed.

(** ** Order of the requests *)

(** C6 as stated fails: [getBalance] has awaited the Ethereum answer before
    it asks Arbitrum, and [getTokenBalance] has awaited the Ethereum batch
    before it asks Arbitrum. *)
Lemma fetches_not_jointly_awaited :
  jointly_awaited (trace (getBalance (sample 0) "0xUser")) = false ∧
  jointly_awaited
    (trace
       (getTokenBalance (sample 0) "0xUser"
          [ {| address := "0xA"; chain := Ethereum |};
            {| address := "0xB"; chain := Arbitrum |} ])) = false ∧
  trace (getBalance (sample 0) "0xUser") =
    [ Issued (GetBalance alchemyEthereum "0xUser");
      Awaited [GetBalance alchemyEthereum "0xUser"];
      Issued (GetBalance alchemyArbitrum "0xUser");
      Awaited [GetBalance alchemyArbitrum "0xUser"];
      Issued (GetBalance alchemyOptimism "0xUser");
      Awaited [GetBalance alchemyOptimism "0xUser"];
      Issued (GetBalance providerAvalanche "0xUser");
      Awaited [GetBalance providerAvalanche "0xUser"] ].
Proof. repeat split; vm_compute; reflexivity. Qed.

(** The requests of the Avalanche batch, on the other hand, are issued
    together and awaited jointly. *)
Lemma avalanche_contracts_jointly_awaited :
  trace
    (getTokenBalance (sample 0) "0xUser"
       [ {| address := "0xA"; chain := Avalanche |};
         {| address := "0xB"; chain := Avalanche |} ])
  = [ Issued (BalanceOf "0xA" "0xUser"); Issued (Decimals "0xA");
      Issued (BalanceOf "0xB" "0xUser"); Issued (Decimals "0xB");
      Awaited [ BalanceOf "0xA" "0xUser"; Decimals "0xA";
                BalanceOf "0xB" "0xUser"; Decimals "0xB" ] ] ∧
  jointly_awaited
    (trace
       (getTokenBalance (sample 0) "0xUser"
          [ {| address := "0xA"; chain := Avalanche |};
            {| address := "0xB"; chain := Avalanche |} ])) = true.
Proof. split; vm_compute; reflexivity. Qed.

(** ** The Avalanche batch *)

(** C4 as stated fails: one contract's failure aborts the batch.  The
    contract ["0xBad"] reverts; its sibling ["0xB"] answers both requests,
    and yet the batch is rejected with the cause of ["0xBad"], the record of
    ["0xB"] is dropped, and [getTokenBalance] fails. *)
Lemma avalanche_failure_rejects_the_batch :
  contract_balanceOf (sample (10 ^ 18)) "0xB" "0xUser" = Ok (10 ^ 18) ∧
  contract_decimals (sample (10 ^ 18)) "0xB" = Ok 18%N ∧
  run_result
    (await (getAvalancheTokenBalances (sample (10 ^ 18)) "0xUser"
              ["0xBad"; "0xB"]))
  = Throw "call revert exception" ∧
  run_result
    (getTokenBalance (sample (10 ^ 18)) "0xUser"
       [ {| address := "0xBad"; chain := Avalanche |};
         {| address := "0xB"; chain := Avalanche |} ])
  = Throw "Not valid contract_addresses".
Proof. repeat split; vm_compute; reflexivity. Qed.

(** C4, as amended: on the Avalanche path the requests of every contract
    are issued whatever the answers are, and the promise of each contract
    depends on the answers to its own two requests only, so that it settles
    the same way whether or not a sibling fails (it is the same promise when
    the two answers are the same and arrive at the same instants; whenever
    the two answers are the same it is fulfilled or rejected alike, and
    fulfilled with the same record); but the promises are joined by
    [Promise.all], and the failure of any one contract's request rejects
    the whole batch, so that [getTokenBalance] fails with
    ['Not valid contract_addresses'] on every input with this batch. *)
Theorem avalanche_contracts_independent (env : Providers) (u : string)
    (tokens : list string) :
  trace (dataPromises env u tokens)
  = Issued <$> (tokens ≫= contractRequests u) ∧
  (∃ ps,
     run_result (dataPromises env u tokens) = Ok ps ∧
     length ps = length tokens ∧
     ∀ i a, tokens !! i = Some a →
       ∃ p, ps !! i = Some p ∧
            pending p = contractRequests u a ∧
            (∀ env', agree_on env env' u a →
               ∃ ps', run_result (dataPromises env' u tokens) = Ok ps' ∧
                      ps' !! i = Some p) ∧
            (∀ env', same_answers env env' u a →
               ∃ ps' p',
                 run_result (dataPromises env' u tokens) = Ok ps' ∧
                 ps' !! i = Some p' ∧
                 pending p' = pending p ∧
                 isOk (outcome p') = isOk (outcome p) ∧
                 ∀ r, outcome p = Ok r → outcome p' = Ok r)) ∧
  (∀ a, a ∈ tokens →
        isOk (contract_balanceOf env a u) = false ∨
        isOk (contract_decimals env a) = false →
        isOk (run_result (await (getAvalancheTokenBalances env u tokens)))
        = false ∧
        ∀ l, tokensOf Avalanche l = tokens →
             run_result (getTokenBalance env u l)
             = Throw "Not valid contract_addresses").
Proof.
  rewrite dataPromises_run. split; [reflexivity|]. split.
  - exists (contractPromise env u <$> tokens).
    split; [reflexivity|]. split; [apply length_fmap|].
    intros i a Hi. exists (contractPromise env u a).
    split; [by rewrite list_lookup_fmap, Hi|].
    split; [apply pending_contractPromise|]. split.
    + intros env' (Hb & Hd & Hab & Had). rewrite dataPromises_run.
      exists (contractPromise env' u <$> tokens). split; [reflexivity|].
      rewrite list_lookup_fmap, Hi. cbn [fmap option_fmap option_map].
      f_equal. unfold contractPromise. by rewrite Hb, Hd, Hab, Had.
    + intros env' (Hb & Hd). rewrite dataPromises_run.
      exists (contractPromise env' u <$> tokens), (contractPromise env' u a).
      split; [reflexivity|].
      split; [by rewrite list_lookup_fmap, Hi|].
      split; [by rewrite !pending_contractPromise|].
      change (outcome (contractPromise env' u a))
        with (contractOutcome env' u a).
      change (outcome (contractPromise env u a))
        with (contractOutcome env u a).
      rewrite !contractOutcome_answers, Hb, Hd.
      destruct (contract_balanceOf env a u), (contract_decimals env a);
        try done.
      by do 2 destruct (_ <=? _)%nat.
  - intros a Hin Hf. split.
    + unfold await. rewrite getAvalancheTokenBalances_run.
      cbn [mbind M_bind run_result fst].
      apply (fetch_avalanche_fails _ _ _ a Hin).
      by apply contractOutcome_fails.
    + intros l Hl. apply (getTokenBalance_fails env u l Avalanche).
      apply provider_call_fails_batch. exists a. by rewrite Hl.
Qed.

(** With a reverting sibling: ["0xBad"] reverts, the promise of ["0xB"] is
    fulfilled all the same, and the batch is rejected. *)
Lemma avalanche_contracts_independent_witness :
  trace (dataPromises (sample (10 ^ 18)) "0xUser" ["0xBad"; "0xB"])
  = [ Issued (BalanceOf "0xBad" "0xUser"); Issued (Decimals "0xBad");
      Issued (BalanceOf "0xB" "0xUser"); Issued (Decimals "0xB") ] ∧
  (∃ ps p,
     run_result (dataPromises (sample (10 ^ 18)) "0xUser" ["0xBad"; "0xB"])
     = Ok ps ∧
     ps !! 1%nat = Some p ∧
     outcome p = Ok {| tokenAddress := "0xB"; tokenChain := Avalanche;
                       balance := Js.Str "1.0" |}) ∧
  isOk (run_result
          (await (getAvalancheTokenBalances (sample (10 ^ 18)) "0xUser"
                    ["0xBad"; "0xB"]))) = false.
Proof.
  destruct (avalanche_contracts_independent (sample (10 ^ 18)) "0xUser"
              ["0xBad"; "0xB"]) as (Ht & (ps & Hps & Hlen & Hind) & Hrej).
  split; [exact Ht|]. split.
  - destruct (Hind 1%nat "0xB" eq_refl) as (p & Hp & Hpending & Hagree & _).
    exists ps, p. split; [exact Hps|]. split; [exact Hp|].
    destruct (Hagree (sample (10 ^ 18))) as (ps' & Hps' & Hp').
    { repeat split; reflexivity. }
    vm_compute in Hps'. injection Hps' as <-.
    vm_compute in Hp'. injection Hp' as <-. reflexivity.
  - destruct (Hrej "0xBad") as [H _]; [by left | by left | exact H].
Defined.

(** * Further properties of the code *)

(** ** [getBalance]: failures and requests *)

Lemma issued_app (t1 t2 : list Event) :
  issued (t1 ++ t2) = issued t1 ++ issued t2.
Proof. apply omap_app. Qed.

Lemma logged_app (t1 t2 : list Event) :
  logged (t1 ++ t2) = logged t1 ++ logged t2.
Proof. apply omap_app. Qed.

(** X1: when [getBalance] fails, the error it throws is the cause of the
    first failing query, as the provider gave it (no generic message);
    every adapter before the failing one had answered, no adapter after it
    is queried, and nothing is written to the console. *)
Theorem getBalance_failure_exposed (env : Providers) (u : UserAddress)
    (cause : string) :
  run_result (getBalance env u) = Throw cause →
  ∃ i p,
    adapters !! i = Some p ∧
    core_getBalance env p u = Throw cause ∧
    Forall (λ q, isOk (core_getBalance env q u) = true) (take i adapters) ∧
    issued (trace (getBalance env u))
    = (λ q, GetBalance q u) <$> take (S i) adapters ∧
    logged (trace (getBalance env u)) = [].
Proof.
  unfold getBalance, getBalance_call, await, issue.
  destruct (core_getBalance env alchemyEthereum u) as [b1|e1] eqn:E1.
  2: { intros [= <-]. exists 0%nat, alchemyEthereum.
       repeat split; try reflexivity; [done | constructor]. }
  destruct (core_getBalance env alchemyArbitrum u) as [b2|e2] eqn:E2.
  2: { intros [= <-]. exists 1%nat, alchemyArbitrum.
       repeat split; try reflexivity; [done|].
       repeat constructor. by rewrite E1. }
  destruct (core_getBalance env alchemyOptimism u) as [b3|e3] eqn:E3.
  2: { intros [= <-]. exists 2%nat, alchemyOptimism.
       repeat split; try reflexivity; [done|].
       repeat constructor; by rewrite ?E1, ?E2. }
  destruct (core_getBalance env providerAvalanche u) as [b4|e4] eqn:E4.
  2: { intros [= <-]. exists 3%nat, providerAvalanche.
       repeat split; try reflexivity; [done|].
       repeat constructor; by rewrite ?E1, ?E2, ?E3. }
  discriminate.
Qed.

Lemma getBalance_failure_exposed_witness :
  run_result (getBalance (outage alchemyOptimism (sample 0)) "0xUser")
  = Throw "missing response" ∧
  ∃ i p,
    adapters !! i = Some p ∧
    core_getBalance (outage alchemyOptimism (sample 0)) p "0xUser"
    = Throw "missing response" ∧
    Forall (λ q, isOk (core_getBalance (outage alchemyOptimism (sample 0))
                         q "0xUser") = true) (take i adapters) ∧
    issued (trace (getBalance (outage alchemyOptimism (sample 0)) "0xUser"))
    = (λ q, GetBalance q "0xUser") <$> take (S i) adapters ∧
    logged (trace (getBalance (outage alchemyOptimism (sample 0)) "0xUser"))
    = [].
Proof.
  assert (H : run_result
                (getBalance (outage alchemyOptimism (sample 0)) "0xUser")
              = Throw "missing response") by reflexivity.
  split; [exact H|].
  exact (getBalance_failure_exposed _ _ _ H).
Defined.

(** X2: [getBalance] returns exactly when the four queries succeed; it then
    has made exactly one query per adapter, in the order Ethereum,
    Arbitrum, Optimism, Avalanche, each for the account given; whether it
    returns or not it writes nothing to the console and never makes more
    than these four queries. *)
Theorem getBalance_returns_iff (env : Providers) (u : UserAddress) :
  (isOk (run_result (getBalance env u)) = true ↔
   ∀ p, isOk (core_getBalance env p u) = true) ∧
  (isOk (run_result (getBalance env u)) = true →
   issued (trace (getBalance env u)) = (λ q, GetBalance q u) <$> adapters) ∧
  issued (trace (getBalance env u))
    `prefix_of` (λ q, GetBalance q u) <$> adapters ∧
  logged (trace (getBalance env u)) = [].
Proof.
  unfold getBalance, getBalance_call, await, issue.
  destruct (core_getBalance env alchemyEthereum u) as [b1|e1] eqn:E1.
  2: { split; [split; [done|]|split; [done|split; [|reflexivity]]].
       - intros H. specialize (H alchemyEthereum). by rewrite E1 in H.
       - by eexists. }
  destruct (core_getBalance env alchemyArbitrum u) as [b2|e2] eqn:E2.
  2: { split; [split; [done|]|split; [done|split; [|reflexivity]]].
       - intros H. specialize (H alchemyArbitrum). by rewrite E2 in H.
       - by eexists. }
  destruct (core_getBalance env alchemyOptimism u) as [b3|e3] eqn:E3.
  2: { split; [split; [done|]|split; [done|split; [|reflexivity]]].
       - intros H. specialize (H alchemyOptimism). by rewrite E3 in H.
       - by eexists. }
  destruct (core_getBalance env providerAvalanche u) as [b4|e4] eqn:E4.
  2: { split; [split; [done|]|split; [done|split; [|reflexivity]]].
       - intros H. specialize (H providerAvalanche). by rewrite E4 in H.
       - by eexists. }
  split; [split|split; [done|split; [by exists []|reflexivity]]].
  - intros _ [| | |]; by rewrite ?E1, ?E2, ?E3, ?E4.
  - done.
Qed.

(** ** [getTokenBalance]: when it returns, what it asks, what it logs *)

Section RunFacts.

Variable env : Providers.

Lemma contractOutcome_isOk (u a : string) :
  isOk (contractOutcome env u a) = true ↔ contract_answers env u a.
Proof.
  rewrite contractOutcome_answers.
  unfold contract_answers, Ethers.formatUnits. split.
  - destruct (contract_balanceOf env a u) as [b|];
      destruct (contract_decimals env a) as [d|];
      try done; [|by destruct (_ <=? _)%nat].
    cbn. destruct (d <=? 256)%N eqn:E; [|done].
    intros _. exists b, d. repeat split. by apply N.leb_le.
  - intros (b & d & -> & -> & Hd%N.leb_le). cbn. by rewrite Hd.
Qed.

Lemma batch_isOk (c : Chain) (u : string) (l : list TokenContractAddress) :
  isOk (batch env c u l) = true ↔ chain_answers env c u l.
Proof.
  assert (Halchemy : ∀ c', c' ≠ Avalanche →
    isOk (batch env c' u l) = true ↔
    tokensOf c' l = [] ∨
    isOk (core_getTokenBalances env (provider_of c') u (tokensOf c' l)) = true).
  { intros c' Hc'. unfold batch.
    destruct (tokensOf c' l) as [|a toks] eqn:E; [by split; auto|].
    assert (Hf : fetch env c' u (a :: toks) =
      core_getTokenBalances env (provider_of c') u (a :: toks)
        ≫= λ response, processTokenBalancesResponse response c')
      by (by destruct c'). rewrite Hf.
    destruct (core_getTokenBalances env (provider_of c') u (a :: toks))
      as [response|]; cbn.
    - destruct (processTokenBalancesResponse_Normalized response c')
        as (out & -> & _). split; auto.
    - split; [done | by intros [|]]. }
  destruct c; try (by apply Halchemy).
  unfold batch, chain_answers.
  destruct (tokensOf Avalanche l) as [|a toks] eqn:E.
  { split; [|done]. by intros _ x ?%elem_of_nil. }
  rewrite fetch_avalanche_isOk.
  split; intros H x Hx; apply contractOutcome_isOk; by apply H.
Qed.

Lemma block_trace (c : Chain) (u : string) (l : list TokenContractAddress)
    (res : list AccountCurrentTokenBalance) :
  trace (block env c u (tokensOf c l) res) = blockEvents env c u l.
Proof. unfold block, blockEvents. by destruct (tokensOf c l). Qed.

Lemma blocks_trace (cs : list Chain) (u : string)
    (l : list TokenContractAddress) (res : list AccountCurrentTokenBalance) :
  trace (blocks env cs u l res)
  = ran env cs u l ≫= λ c, blockEvents env c u l.
Proof.
  revert res; induction cs as [|c cs IH]; intros res; [done|].
  cbn [blocks ran]. rewrite bind_run, block_result, block_trace.
  destruct (batch env c u l) as [data|e]; cbn [trace snd isOk].
  - rewrite IH. reflexivity.
  - cbn. by rewrite app_nil_r.
Qed.

Lemma issued_blockEvents (c : Chain) (u : string)
    (l : list TokenContractAddress) :
  issued (blockEvents env c u l)
  = match tokensOf c l with
    | [] => []
    | tokens => requests c u tokens
    end.
Proof.
  unfold blockEvents, blockTrace. destruct (tokensOf c l) as [|a toks]; [done|].
  generalize (requests c u (a :: toks)) as rs. intros rs.
  rewrite issued_app. cbn.
  assert (E : issued match fetch env c u (a :: toks) with
                     | Ok _ => []
                     | Throw cause => [ConsoleError cause]
                     end = []) by (by destruct (fetch env c u (a :: toks))).
  change (omap _ ?t) with (issued t). rewrite E, app_nil_r.
  induction rs as [|r rs IH]; [done|]. cbn. by f_equal.
Qed.

Lemma logged_blockEvents (c : Chain) (u : string)
    (l : list TokenContractAddress) :
  logged (blockEvents env c u l)
  = match batch env c u l with
    | Ok _ => []
    | Throw cause => [cause]
    end.
Proof.
  unfold blockEvents, blockTrace, batch.
  destruct (tokensOf c l) as [|a toks]; [done|].
  generalize (requests c u (a :: toks)) as rs. intros rs.
  rewrite logged_app. cbn.
  assert (E : logged (Issued <$> rs) = [])
    by (induction rs as [|r rs IH]; [done | exact IH]).
  rewrite E. cbn. change (omap _ ?t) with (logged t).
  by destruct (fetch env c u (a :: toks)).
Qed.

Lemma issued_bind (cs : list Chain) (f : Chain → list Event) :
  issued (cs ≫= f) = cs ≫= λ c, issued (f c).
Proof.
  induction cs as [|c cs IH]; [done|]. cbn. by rewrite issued_app, <- IH.
Qed.

Lemma logged_bind (cs : list Chain) (f : Chain → list Event) :
  logged (cs ≫= f) = cs ≫= λ c, logged (f c).
Proof.
  induction cs as [|c cs IH]; [done|]. cbn. by rewrite logged_app, <- IH.
Qed.

Lemma elem_of_issued (r : Request) (t : list Event) :
  r ∈ issued t ↔ Issued r ∈ t.
Proof.
  unfold issued. rewrite list_elem_of_omap. split.
  - intros ([] & Hin & [= <-]); done.
  - intros H. by exists (Issued r).
Qed.

End RunFacts.

(** X3: [getTokenBalance] returns exactly when every chain of the input
    answers: the batched call succeeds on each Alchemy chain that has
    tokens, and on Avalanche every contract answers [balanceOf] and
    [decimals] with at most 256 decimals.  A null balance never makes the
    call fail. *)
Theorem getTokenBalance_returns_iff (env : Providers) (u : UserAddress)
    (l : list TokenContractAddress) :
  isOk (run_result (getTokenBalance env u l)) = true ↔
  ∀ c, chain_answers env c u l.
Proof.
  split.
  - intros H c. apply batch_isOk.
    destruct (run_result (getTokenBalance env u l)) as [out|] eqn:E; [|done].
    apply getTokenBalance_Ok in E
      as (e & a & o & v & He & Ha & Ho & Hv & _).
    destruct c; by rewrite ?He, ?Ha, ?Ho, ?Hv.
  - intros H.
    pose proof (proj2 (batch_isOk env Ethereum u l) (H Ethereum)) as He.
    pose proof (proj2 (batch_isOk env Arbitrum u l) (H Arbitrum)) as Ha.
    pose proof (proj2 (batch_isOk env Optimism u l) (H Optimism)) as Ho.
    pose proof (proj2 (batch_isOk env Avalanche u l) (H Avalanche)) as Hv.
    destruct (batch env Ethereum u l) as [e|] eqn:Ee; [|done].
    destruct (batch env Arbitrum u l) as [a|] eqn:Ea; [|done].
    destruct (batch env Optimism u l) as [o|] eqn:Eo; [|done].
    destruct (batch env Avalanche u l) as [v|] eqn:Ev; [|done].
    assert (E : run_result (getTokenBalance env u l) = Ok (e ++ a ++ o ++ v)).
    { apply getTokenBalance_Ok. by exists e, a, o, v. }
    by rewrite E.
Qed.

Lemma ran_before (env : Providers) (u : string)
    (l : list TokenContractAddress) (c c0 : Chain) :
  c0 ∈ ran env supportedChains u l →
  (rank c < rank c0)%nat →
  isOk (batch env c u l) = true.
Proof.
  unfold supportedChains. cbn [ran].
  destruct (isOk (batch env Ethereum u l)) eqn:Ee;
    destruct (isOk (batch env Arbitrum u l)) eqn:Ea;
    destruct (isOk (batch env Optimism u l)) eqn:Eo;
    rewrite ?elem_of_cons, ?elem_of_nil;
    intros H Hr; destruct c, c0; cbn in Hr; try lia; try done;
    intuition discriminate.
Qed.

Lemma blockEvents_issued (env : Providers) (c : Chain) (u : string)
    (l : list TokenContractAddress) (r : Request) :
  Issued r ∈ blockEvents env c u l →
  r ∈ requests c u (tokensOf c l) ∧ tokensOf c l ≠ [] ∧ request_chain r = c.
Proof.
  intros H%elem_of_issued. rewrite issued_blockEvents in H.
  destruct (tokensOf c l) as [|a toks] eqn:E.
  { by apply elem_of_nil in H. }
  split; [done|]. split; [done|].
  pose proof (requests_chain c u (a :: toks)) as Hc.
  rewrite Forall_forall in Hc. by apply Hc.
Qed.

Lemma getTokenBalance_issued (env : Providers) (u : string)
    (l : list TokenContractAddress) (r : Request) :
  Issued r ∈ trace (getTokenBalance env u l) →
  request_chain r ∈ ran env supportedChains u l ∧
  r ∈ requests (request_chain r) u (tokensOf (request_chain r) l) ∧
  tokensOf (request_chain r) l ≠ [].
Proof.
  rewrite getTokenBalance_blocks, blocks_trace.
  intros (c & Hr & Hc)%list_elem_of_bind.
  apply blockEvents_issued in Hr as (Hin & Hne & <-). done.
Qed.

(** X4: [getTokenBalance] stops at the first chain that fails: a request
    to a chain is issued only if every chain before it, in the order
    Ethereum, Arbitrum, Optimism, Avalanche, had answered.  So after a
    failed batch no later chain is queried. *)
Theorem getTokenBalance_stops_at_failure (env : Providers) (u : UserAddress)
    (l : list TokenContractAddress) (r : Request) (c : Chain) :
  Issued r ∈ trace (getTokenBalance env u l) →
  (rank c < rank (request_chain r))%nat →
  chain_answers env c u l.
Proof.
  intros (Hran & _)%getTokenBalance_issued Hrank.
  apply batch_isOk. by eapply ran_before.
Qed.

(** What a call has logged: nothing when it returns; when it throws, the
    reason for which the fetch of one chain failed, every chain before that
    one having been fetched. *)
Lemma getTokenBalance_logged (env : Providers) (u : UserAddress)
    (l : list TokenContractAddress) :
  match run_result (getTokenBalance env u l) with
  | Ok _ => logged (trace (getTokenBalance env u l)) = []
  | Throw _ =>
      ∃ c cause,
        batch env c u l = Throw cause ∧
        (∀ c', (rank c' < rank c)%nat → isOk (batch env c' u l) = true) ∧
        logged (trace (getTokenBalance env u l)) = [cause]
  end.
Proof.
  rewrite getTokenBalance_blocks, blocks_result, blocks_trace, logged_bind.
  unfold supportedChains. rewrite !mapM_cons. cbn [ran].
  pose proof (logged_blockEvents env Ethereum u l) as Le.
  pose proof (logged_blockEvents env Arbitrum u l) as La.
  pose proof (logged_blockEvents env Optimism u l) as Lo.
  pose proof (logged_blockEvents env Avalanche u l) as Lv.
  destruct (batch env Ethereum u l) as [e|ce] eqn:Ee; cbn [isOk].
  2: { exists Ethereum, ce. split; [done|]. split.
       - intros c' Hr. destruct c'; cbn in Hr; lia.
       - cbn. by rewrite Le. }
  destruct (batch env Arbitrum u l) as [a|ca] eqn:Ea; cbn [isOk].
  2: { exists Arbitrum, ca. split; [done|]. split.
       - intros c' Hr. destruct c'; cbn in Hr; try lia; by rewrite ?Ee.
       - cbn. by rewrite Le, La. }
  destruct (batch env Optimism u l) as [o|co] eqn:Eo; cbn [isOk].
  2: { exists Optimism, co. split; [done|]. split.
       - intros c' Hr. destruct c'; cbn in Hr; try lia; by rewrite ?Ee, ?Ea.
       - cbn. by rewrite Le, La, Lo. }
  destruct (batch env Avalanche u l) as [v|cv] eqn:Ev; cbn [isOk].
  2: { exists Avalanche, cv. split; [done|]. split.
       - intros c' Hr.
         destruct c'; cbn in Hr; try lia; by rewrite ?Ee, ?Ea, ?Eo.
       - cbn. by rewrite Le, La, Lo, Lv. }
  cbn. by rewrite Le, La, Lo, Lv.
Qed.

Lemma tokensOf_elem_of (c : Chain) (l : list TokenContractAddress)
    (a : string) :
  a ∈ tokensOf c l ↔ {| address := a; chain := c |} ∈ l.
Proof.
  unfold tokensOf. rewrite list_elem_of_fmap. split.
  - intros ([a' c'] & -> & [Hc Hin]%list_elem_of_filter).
    cbn in Hc. by subst.
  - intros Hin. exists {| address := a; chain := c |}.
    split; [done|]. by apply list_elem_of_filter.
Qed.

(** X6: [getTokenBalance] asks only about its input: every batched request
    goes to an Alchemy client, for the account given and for exactly the
    addresses of the input references of that chain (of which there is at
    least one); every [balanceOf] and [decimals] request is for a contract
    that the input lists on Avalanche, [balanceOf] for the account given;
    and no native balance is ever requested. *)
Theorem getTokenBalance_asks_about_input (env : Providers) (u : UserAddress)
    (l : list TokenContractAddress) (r : Request) :
  Issued r ∈ trace (getTokenBalance env u l) →
  match r with
  | GetBalance _ _ => False
  | GetTokenBalances p owner tokens =>
      p ≠ providerAvalanche ∧ owner = u ∧ tokens ≠ [] ∧
      tokens = tokensOf (request_chain r) l
  | BalanceOf a owner =>
      owner = u ∧ {| address := a; chain := Avalanche |} ∈ l
  | Decimals a => {| address := a; chain := Avalanche |} ∈ l
  end.
Proof.
  intros (_ & Hin & Hne)%getTokenBalance_issued.
  assert (Hava : ∀ r', r' ∈ requests Avalanche u (tokensOf Avalanche l) →
    ∃ a, a ∈ tokensOf Avalanche l ∧ (r' = BalanceOf a u ∨ r' = Decimals a)).
  { cbn [requests]. intros r' (a & Hr' & Ha)%list_elem_of_bind.
    exists a. split; [done|]. unfold contractRequests in Hr'.
    rewrite !elem_of_cons, elem_of_nil in Hr'. intuition auto. }
  destruct r as [p o|p o toks|a o|a]; cbn [request_chain] in *.
  - destruct p; cbn [requests] in Hin;
      first [apply list_elem_of_singleton in Hin; discriminate
            | apply Hava in Hin as (a & _ & [|]); discriminate].
  - destruct p; cbn [requests provider_of] in Hin.
    1-3: apply list_elem_of_singleton in Hin; injection Hin as -> ->; done.
    apply Hava in Hin as (a & _ & [|]); discriminate.
  - apply Hava in Hin as (a' & Ha & [[= -> ->]|]); [|discriminate].
    split; [done|]. by apply tokensOf_elem_of.
  - apply Hava in Hin as (a' & Ha & [|[= ->]]); [discriminate|].
    by apply tokensOf_elem_of.
Qed.

Lemma ran_prefix (env : Providers) (cs : list Chain) (u : string)
    (l : list TokenContractAddress) :
  ran env cs u l `prefix_of` cs.
Proof.
  induction cs as [|c cs IH]; [done|]. cbn [ran].
  destruct (isOk (batch env c u l)).
  - by apply prefix_cons.
  - by exists cs.
Qed.

Lemma ran_all (env : Providers) (cs : list Chain) (u : string)
    (l : list TokenContractAddress) :
  isOk (mapM (λ c, batch env c u l) cs) = true → ran env cs u l = cs.
Proof.
  induction cs as [|c cs IH]; [done|]. rewrite mapM_cons. cbn [ran].
  destruct (batch env c u l) as [d|]; [|done]. cbn [isOk].
  destruct (mapM (λ c, batch env c u l) cs) as [ds|] eqn:E; [|done].
  intros _. by rewrite IH.
Qed.

Lemma length_contractRequests (u : string) (tokens : list string) :
  length (tokens ≫= contractRequests u) = (2 * length tokens)%nat.
Proof.
  induction tokens as [|a tokens IH]; [done|]. cbn in *. rewrite IH. lia.
Qed.

(** X7: the requests of a call of [getTokenBalance] follow one plan: for
    each chain with tokens, in the order of the blocks, one batched request
    on an Alchemy chain and a [balanceOf] and a [decimals] request per
    contract on Avalanche.  A call that returns has issued exactly the plan,
    a call that fails a beginning of it; so a call never issues more than
    three batched requests plus two requests per Avalanche reference. *)
Theorem getTokenBalance_requests_follow_plan (env : Providers)
    (u : UserAddress) (l : list TokenContractAddress) :
  issued (trace (getTokenBalance env u l)) `prefix_of` plan u l ∧
  (isOk (run_result (getTokenBalance env u l)) = true →
   issued (trace (getTokenBalance env u l)) = plan u l) ∧
  (length (issued (trace (getTokenBalance env u l)))
   ≤ 3 + 2 * length (filter (λ x, chain x = Avalanche) l))%nat.
Proof.
  assert (Hissued : issued (trace (getTokenBalance env u l))
    = ran env supportedChains u l ≫= λ c,
        match tokensOf c l with
        | [] => []
        | tokens => requests c u tokens
        end).
  { rewrite getTokenBalance_blocks, blocks_trace, issued_bind.
    generalize (ran env supportedChains u l) as cs. intros cs.
    induction cs as [|c cs IH]; [done|].
    cbn. by rewrite issued_blockEvents, IH. }
  assert (Hprefix : issued (trace (getTokenBalance env u l))
                      `prefix_of` plan u l).
  { rewrite Hissued. unfold plan.
    destruct (ran_prefix env supportedChains u l) as [k Hk].
    rewrite Hk at 2. rewrite bind_app. by eexists. }
  split; [exact Hprefix|]. split.
  - intros Hok. rewrite Hissued. unfold plan. f_equal.
    apply ran_all. rewrite getTokenBalance_blocks, blocks_result in Hok.
    by destruct (mapM _ _).
  - apply prefix_length in Hprefix. etransitivity; [exact Hprefix|].
    unfold plan, supportedChains. cbn [mbind list_bind].
    rewrite !length_app. cbn [length].
    assert (Hone : ∀ c, c ≠ Avalanche →
      (length match tokensOf c l with
              | [] => []
              | tokens => requests c u tokens
              end ≤ 1)%nat).
    { intros c Hc. destruct (tokensOf c l); [cbn; lia|].
      destruct c; cbn; done || lia. }
    pose proof (Hone Ethereum ltac:(done)).
    pose proof (Hone Arbitrum ltac:(done)).
    pose proof (Hone Optimism ltac:(done)).
    assert (Hava : length match tokensOf Avalanche l with
                          | [] => []
                          | tokens => requests Avalanche u tokens
                          end
                   = (2 * length (filter (λ x, chain x = Avalanche) l))%nat).
    { replace (length (filter (λ x, chain x = Avalanche) l))
        with (length (tokensOf Avalanche l))
        by (unfold tokensOf; apply length_fmap).
      destruct (tokensOf Avalanche l) as [|a toks] eqn:E; [done|].
      cbn [requests]. apply length_contractRequests. }
    lia.
Qed.

(** ** [getTokenBalance]: which records come back *)

Lemma filter_chain_all (c : Chain) (d : list AccountCurrentTokenBalance) :
  Forall (λ r, tokenChain r = c) d →
  filter (λ r, tokenChain r = c) d = d.
Proof.
  induction 1 as [|r d Hr _ IH]; [done|].
  by rewrite filter_cons, decide_True, IH.
Qed.

Lemma filter_chain_none (c c' : Chain) (d : list AccountCurrentTokenBalance) :
  c ≠ c' →
  Forall (λ r, tokenChain r = c') d →
  filter (λ r, tokenChain r = c) d = [].
Proof.
  intros Hc. induction 1 as [|r d Hr _ IH]; [done|].
  rewrite filter_cons, decide_False; [done|]. congruence.
Qed.

(** The records of chain [c] in a successful output are the batch of [c]. *)
Lemma getTokenBalance_chain_records (env : Providers) (u : string)
    (l : list TokenContractAddress) (out : list AccountCurrentTokenBalance)
    (c : Chain) :
  run_result (getTokenBalance env u l) = Ok out →
  batch env c u l = Ok (filter (λ r, tokenChain r = c) out).
Proof.
  intros (e & a & o & v & He & Ha & Ho & Hv & ->)%getTokenBalance_Ok.
  pose proof (batch_chain env _ _ _ _ He) as Ce.
  pose proof (batch_chain env _ _ _ _ Ha) as Ca.
  pose proof (batch_chain env _ _ _ _ Ho) as Co.
  pose proof (batch_chain env _ _ _ _ Hv) as Cv.
  rewrite !filter_app.
  destruct c;
    repeat match goal with
    | H : Forall (λ r, tokenChain r = ?c') ?d
      |- context [filter (λ r, tokenChain r = ?c) ?d] =>
        first [ rewrite (filter_chain_all c d H)
              | rewrite (filter_chain_none c c' d ltac:(discriminate) H) ]
    end;
    by rewrite ?app_nil_r.
Qed.

(** X8: on Avalanche nothing is dropped: in the output of a successful
    call, the Avalanche records are, in input order, one record for each
    Avalanche reference of the input, duplicates included, carrying the
    address of that reference. *)
Theorem getTokenBalance_keeps_avalanche (env : Providers) (u : UserAddress)
    (l : list TokenContractAddress) (out : list AccountCurrentTokenBalance) :
  run_result (getTokenBalance env u l) = Ok out →
  reference <$> filter (λ r, tokenChain r = Avalanche) out
  = filter (λ x, chain x = Avalanche) l.
Proof.
  intros H%(getTokenBalance_chain_records _ _ _ _ Avalanche).
  rewrite <- tokensOf_retagged. revert H. unfold batch.
  generalize (filter (λ r, tokenChain r = Avalanche) out) as data.
  intros data.
  assert (Hf : fetch env Avalanche u (tokensOf Avalanche l) = Ok data →
    reference <$> data
    = (λ a, {| address := a; chain := Avalanche |}) <$> tokensOf Avalanche l).
  { intros H%fetch_avalanche.
    induction H as [|? ? ? ? [s ->] _ IH]; [done|].
    rewrite !fmap_cons, IH. reflexivity. }
  destruct (tokensOf Avalanche l) as [|a toks] eqn:E; [by intros [= <-]|].
  exact Hf.
Qed.


(** ** Order of the input *)

Lemma filter_chain_filter (c c' : Chain) (l : list TokenContractAddress) :
  filter (λ x, chain x = c) (filter (λ x, chain x = c') l)
  = if decide (c = c') then filter (λ x, chain x = c) l else [].
Proof.
  induction l as [|x l IH]; [by case_decide|].
  rewrite (filter_cons (λ x, chain x = c')).
  destruct (decide (chain x = c')) as [Hx|Hx].
  - rewrite !filter_cons, IH. repeat case_decide; congruence.
  - rewrite IH, filter_cons. repeat case_decide; congruence.
Qed.

Lemma tokensOf_grouped (c : Chain) (l : list TokenContractAddress) :
  tokensOf c (grouped l) = tokensOf c l.
Proof.
  unfold tokensOf, grouped, supportedChains. cbn [mbind list_bind].
  rewrite !filter_app, !filter_chain_filter, filter_nil.
  destruct c; repeat case_decide; try done; by rewrite ?app_nil_r.
Qed.

(** X10: only the order within each chain matters: regrouping the input by
    chain (all Ethereum references first, then Arbitrum, Optimism and
    Avalanche, each group in its input order) changes neither the result of
    [getTokenBalance], nor its requests, nor what it logs; and a regrouped
    input is a rearrangement of the input. *)
Theorem getTokenBalance_regrouped (env : Providers) (u : UserAddress)
    (l : list TokenContractAddress) :
  getTokenBalance env u (grouped l) = getTokenBalance env u l ∧
  grouped l ≡ₚ l.
Proof.
  split.
  - unfold getTokenBalance. by rewrite !tokensOf_grouped.
  - unfold grouped, supportedChains. cbn [mbind list_bind].
    rewrite app_nil_r. apply partition_Permutation.
Qed.

(** ** [processTokenBalancesResponse] and concatenation *)

(** X11: normalization works entry by entry: the normalized form of two
    responses put end to end is the normalized form of the first followed
    by the normalized form of the second. *)
Theorem processTokenBalancesResponse_app (l1 l2 : list TokenBalance)
    (c : Chain) :
  ∃ out1 out2,
    processTokenBalancesResponse {| tokenBalances := l1 |} c = Ok out1 ∧
    processTokenBalancesResponse {| tokenBalances := l2 |} c = Ok out2 ∧
    processTokenBalancesResponse {| tokenBalances := l1 ++ l2 |} c
    = Ok (out1 ++ out2).
Proof.
  destruct (processTokenBalancesResponse_Normalized {| tokenBalances := l1 |} c)
    as (out1 & H1 & N1).
  destruct (processTokenBalancesResponse_Normalized {| tokenBalances := l2 |} c)
    as (out2 & H2 & N2).
  destruct (processTokenBalancesResponse_Normalized
              {| tokenBalances := l1 ++ l2 |} c) as (out & H & N).
  exists out1, out2. split; [done|]. split; [done|].
  rewrite H. f_equal. cbn [tokenBalances] in *.
  apply (Normalized_functional c (l1 ++ l2)); [done|].
  clear H N H1 H2. induction N1; cbn [app]; [done| |].
  - by apply Normalized_null.
  - by apply Normalized_keep.
Qed.

(** ** [getAvalancheTokenBalances] on its own *)

(** X12: a call of [getAvalancheTokenBalances] never throws: it issues a
    [balanceOf] and a [decimals] request for each contract, in order, and
    returns a promise on these requests (on no request, fulfilled with the
    empty sequence, for no contract).  The promise is fulfilled exactly when
    every contract answers, and then with one record per contract, in
    order, carrying the contract's address and the chain Avalanche. *)
Theorem getAvalancheTokenBalances_settles (env : Providers) (u : string)
    (tokens : list string) :
  ∃ p,
    getAvalancheTokenBalances env u tokens
    = (Ok p, Issued <$> (tokens ≫= contractRequests u)) ∧
    pending p = tokens ≫= contractRequests u ∧
    (isOk (outcome p) = true ↔ ∀ a, a ∈ tokens → contract_answers env u a) ∧
    ∀ data, outcome p = Ok data →
      tokenAddress <$> data = tokens ∧
      Forall (λ r, tokenChain r = Avalanche) data.
Proof.
  rewrite getAvalancheTokenBalances_run. eexists. split; [reflexivity|].
  split; [apply pending_batchPromise|].
  change (outcome (batchPromise env u tokens))
    with (fetch env Avalanche u tokens). split.
  - rewrite fetch_avalanche_isOk.
    split; intros H a Ha; apply contractOutcome_isOk; by apply H.
  - intros data Hdata. split; [|by eapply fetch_chain].
    apply fetch_avalanche in Hdata.
    induction Hdata as [|? ? ? ? [s ->] _ IH]; [done|].
    rewrite fmap_cons, IH. reflexivity.
Qed.

(** ** Configuration *)

(** X13: the three Alchemy clients are never configured on networks of
    different kinds: when [NETWORK] is exactly ['mainnet'] all three are on
    their main network, and for every other value, an unset variable
    included, all three are on their Goerli test network; each client takes
    the API key of its own chain. *)
Theorem settings_same_kind_of_network (env : ProcessEnv) :
  (NETWORK env = Some "mainnet" ∧
   network (settingsEthereum env) = ETH_MAINNET ∧
   network (settingsArbitrum env) = ARB_MAINNET ∧
   network (settingsOptimism env) = OPT_MAINNET
   ∨
   NETWORK env ≠ Some "mainnet" ∧
   network (settingsEthereum env) = ETH_GOERLI ∧
   network (settingsArbitrum env) = ARB_GOERLI ∧
   network (settingsOptimism env) = OPT_GOERLI) ∧
  is_mainnet (network (settingsEthereum env))
  = is_mainnet (network (settingsArbitrum env)) ∧
  is_mainnet (network (settingsArbitrum env))
  = is_mainnet (network (settingsOptimism env)) ∧
  apiKey (settingsEthereum env) = ALCHEMY_API_KEY_ETHEREUM env ∧
  apiKey (settingsArbitrum env) = ALCHEMY_API_KEY_ARBITRUM env ∧
  apiKey (settingsOptimism env) = ALCHEMY_API_KEY_OPTIMISM env.
Proof.
  unfold settingsEthereum, settingsArbitrum, settingsOptimism.
  cbn [network apiKey].
  destruct (decide (NETWORK env = Some "mainnet")) as [H|H];
    repeat split; auto.
Qed.

(** ** The numbers of the token path are never NaN *)

Module NumberFacts.
Import Js.

Lemma shr_1_nonneg (mrs : shr_record) :
  0 <= shr_m mrs → 0 <= shr_m (shr_1 mrs).
Proof.
  destruct mrs as [m r s]. cbn [shr_m].
  destruct m as [|[p|p|]|[p|p|]]; cbn; lia.
Qed.

Lemma iter_shr_1_nonneg (p : positive) (mrs : shr_record) :
  0 <= shr_m mrs → 0 <= shr_m (SpecFloat.iter_pos shr_1 p mrs).
Proof.
  revert mrs; induction p as [p IH|p IH|]; intros mrs H; cbn [SpecFloat.iter_pos].
  - apply IH, IH. by apply shr_1_nonneg.
  - by apply IH, IH.
  - by apply shr_1_nonneg.
Qed.

Lemma shr_fexp_nonneg (m e : Z) (l : location) :
  0 <= m → 0 <= shr_m (fst (shr_fexp prec emax m e l)).
Proof.
  intros Hm. unfold shr_fexp, shr.
  assert (H0 : 0 <= shr_m (shr_record_of_loc m l))
    by (destruct l as [|[]]; exact Hm).
  destruct (fexp prec emax (Zdigits2 m + e) - e) as [|p|p]; cbn [fst]; auto.
  by apply iter_shr_1_nonneg.
Qed.

Lemma round_nearest_even_nonneg (m : Z) (l : location) :
  0 <= m → 0 <= round_nearest_even m l.
Proof.
  intros Hm. unfold round_nearest_even.
  destruct l as [|[]]; try done; [destruct (Z.even m)|]; lia.
Qed.

Lemma binary_round_aux_sign (s : bool) (m e : Z) (l : location) :
  0 <= m →
  isNaN (binary_round_aux prec emax s m e l) = false ∧
  signbit (binary_round_aux prec emax s m e l) = s.
Proof.
  intros Hm. unfold binary_round_aux.
  pose proof (shr_fexp_nonneg m e l Hm) as H1.
  destruct (shr_fexp prec emax m e l) as [mrs' e'].
  cbn [fst] in H1.
  pose proof (shr_fexp_nonneg
                (round_nearest_even (shr_m mrs') (loc_of_shr_record mrs'))
                e' loc_Exact
                (round_nearest_even_nonneg _ _ H1)) as H2.
  destruct (shr_fexp prec emax _ e' loc_Exact) as [mrs'' e''].
  cbn [fst] in H2.
  destruct (shr_m mrs'') as [|p|p]; [done| |lia].
  by destruct (e'' <=? emax - prec).
Qed.

(** A quotient of naturals, as a number, is no NaN and has the sign asked
    for. *)
Lemma of_ratio_sign (neg : bool) (n : N) (d : positive) :
  isNaN (of_ratio neg n d) = false ∧ signbit (of_ratio neg n d) = neg.
Proof.
  destruct n as [|p]; [done|]. unfold of_ratio, SFdiv, SFdiv_core_binary.
  set (m' := match _ - _ - _ with
             | 0 => Z.pos p
             | Z.pos _ => Z.shiftl (Z.pos p) _
             | Z.neg _ => 0
             end).
  assert (Hm' : 0 <= m').
  { subst m'. destruct (_ - _ - _); [lia| |lia].
    apply Z.shiftl_nonneg. lia. }
  pose proof (Z.div_pos m' (Z.pos d) Hm' ltac:(lia)) as Hq.
  unfold Z.div in Hq. destruct (Z.div_eucl m' (Z.pos d)) as [q r].
  replace (xorb neg false) with neg by (by destruct neg).
  by apply binary_round_aux_sign.
Qed.

Lemma span_digits_all (l : list ascii) :
  forallb is_digit l = true → span_digits l = (l, []).
Proof.
  induction l as [|c l IH]; [done|]. cbn. intros [Hc Hl]%andb_true_iff.
  by rewrite Hc, IH.
Qed.

Lemma drop_zeros_digits (l : list ascii) :
  forallb is_digit l = true → forallb is_digit (Ethers.drop_zeros l) = true.
Proof.
  induction l as [|c l IH]; [done|]. intros H.
  cbn [Ethers.drop_zeros].
  destruct (ascii_dec c "0"%char) as [-> | Hc].
  - apply IH. by apply andb_true_iff in H as [_ ?].
  - destruct c as [[] [] [] [] [] [] [] []]; try exact H. done.
Qed.

Lemma strip_trailing_zeros_digits (l : list ascii) :
  forallb is_digit l = true →
  forallb is_digit (Ethers.strip_trailing_zeros l) = true.
Proof.
  intros H. unfold Ethers.strip_trailing_zeros.
  assert (Hr : forallb is_digit (rev (Ethers.drop_zeros (rev l))) = true).
  { rewrite forallb_forall in *. intros c Hc%in_rev.
    assert (Hd : forallb is_digit (Ethers.drop_zeros (rev l)) = true).
    { apply drop_zeros_digits, forallb_forall. intros c' Hc'%in_rev. auto. }
    rewrite forallb_forall in Hd. auto. }
  by destruct (rev (Ethers.drop_zeros (rev l))).
Qed.

Lemma numeral_nonempty (n : N) : numeral n ≠ [].
Proof.
  unfold numeral, NilZero.string_of_uint.
  destruct (N.to_uint n) eqn:E; try done;
    cbn; discriminate.
Qed.

(** What [parseFloat] reads in the digits that [formatFixed] wrote: a
    quotient of naturals, negative exactly when the value is. *)
Lemma parseFloat_formatFixed (v : Z) (d : nat) :
  ∃ n k, parseFloat (Ethers.formatFixed v d) = of_ratio (v <? 0) n k.
Proof.
  unfold Ethers.formatFixed, parseFloat.
  rewrite list_ascii_of_string_of_list_ascii.
  set (v' := if v <? 0 then v * -1 else v).
  set (whole := numeral (Z.to_N (v' / 10 ^ Z.of_nat d))).
  set (fraction := Ethers.strip_trailing_zeros
                     (pad_zeros d (numeral (Z.to_N (v' mod 10 ^ Z.of_nat d))))).
  assert (Hw : forallb is_digit whole = true) by apply JsFacts.numeral_digits.
  assert (Hwne : whole ≠ []) by apply numeral_nonempty.
  assert (Hf : forallb is_digit fraction = true)
    by apply strip_trailing_zeros_digits, JsFacts.pad_zeros_digits,
             JsFacts.numeral_digits.
  set (body := match d with
               | O => whole
               | S _ => whole ++ "."%char :: fraction
               end).
  assert (Hbody : ∃ frac,
    span_digits body = (whole, match d with
                               | O => []
                               | S _ => "."%char :: fraction
                               end) ∧
    frac = match d with O => [] | S _ => fraction end).
  { eexists. split; [|reflexivity]. subst body. destruct d.
    - by apply span_digits_all.
    - by apply JsFacts.span_digits_point. }
  destruct Hbody as (frac & Hspan & Hfrac).
  assert (Hsign : match (if v <? 0 then "-"%char :: body else body) with
                  | "-"%char :: r => (true, r)
                  | "+"%char :: r => (false, r)
                  | _ => (false, if v <? 0 then "-"%char :: body else body)
                  end = (v <? 0, body)).
  { destruct (v <? 0); [reflexivity|].
    assert (Hb : ∃ c r, body = c :: r ∧ is_digit c = true).
    { subst body. destruct whole as [|c w]; [done|].
      apply andb_true_iff in Hw as [Hc _].
      destruct d; eexists _, _; split; try reflexivity; done. }
    destruct Hb as (c & r & -> & Hc).
    destruct c as [[] [] [] [] [] [] [] []]; try reflexivity; done. }
  rewrite Hsign, Hspan.
  assert (Hfr : match (match d with
                       | O => []
                       | S _ => "."%char :: fraction
                       end) with
                | "."%char :: r => fst (span_digits r)
                | _ => []
                end = frac).
  { subst frac. destruct d; [done|]. by rewrite span_digits_all. }
  rewrite Hfr.
  destruct (whole ++ frac) as [|c ds] eqn:E.
  { apply app_eq_nil in E as [? _]. done. }
  by eexists _, _.
Qed.

(** The number read from a formatted balance is no NaN, and it has the sign
    bit set exactly when the balance is negative. *)
Lemma parseFloat_formatEther_sign (raw : Z) :
  isNaN (parseFloat (Ethers.formatEther raw)) = false ∧
  signbit (parseFloat (Ethers.formatEther raw)) = (raw <? 0).
Proof.
  unfold Ethers.formatEther.
  destruct (parseFloat_formatFixed raw 18) as (n & k & ->).
  apply of_ratio_sign.
Qed.

End NumberFacts.

(** X14: [processTokenBalancesResponse] never yields NaN: its output has
    one record for each entry of the response that has a raw balance, in
    order; the record carries the address of its entry and, as balance, the
    number read from the entry's own raw balance; this number is no NaN,
    and its sign bit is set exactly when the raw balance is negative (so a
    non-negative raw balance never gives a negative number, nor [-0]). *)
Theorem processTokenBalancesResponse_no_NaN (response : TokenBalancesResponse)
    (c : Chain) :
  ∃ out,
    processTokenBalancesResponse response c = Ok out ∧
    Forall2 (λ b r, ∃ raw,
        tokenBalance b = Some raw ∧
        tokenAddress r = contractAddress b ∧
        balance r = Js.Num (Js.parseFloat (Ethers.formatEther raw)) ∧
        Js.isNaN (Js.parseFloat (Ethers.formatEther raw)) = false ∧
        Js.signbit (Js.parseFloat (Ethers.formatEther raw)) = (raw <? 0))
      (filter (λ b, tokenBalance b ≠ None) (tokenBalances response)) out.
Proof.
  destruct (processTokenBalancesResponse_Normalized response c)
    as (out & Hout & HN).
  exists out. split; [done|]. clear Hout.
  induction HN as [|tb l out E _ IH|tb raw l out E _ IH].
  - constructor.
  - rewrite filter_cons, decide_False; [done|]. by intros H; apply H.
  - rewrite filter_cons, decide_True by (by rewrite E).
    constructor; [|done].
    exists raw. split; [done|]. split; [done|]. split; [done|].
    apply NumberFacts.parseFloat_formatEther_sign.
Qed.

(** ** The properties above at sample inputs *)

Lemma getTokenBalance_stops_at_failure_witness :
  Issued (GetTokenBalances alchemyArbitrum "0xUser" ["0xB"])
    ∈ trace
        (getTokenBalance (outage alchemyArbitrum (sample (10 ^ 18))) "0xUser"
           [ {| address := "0xA"; chain := Ethereum |};
             {| address := "0xB"; chain := Arbitrum |};
             {| address := "0xC"; chain := Avalanche |} ]) ∧
  chain_answers (outage alchemyArbitrum (sample (10 ^ 18))) Ethereum "0xUser"
    [ {| address := "0xA"; chain := Ethereum |};
      {| address := "0xB"; chain := Arbitrum |};
      {| address := "0xC"; chain := Avalanche |} ].
Proof.
  assert (H : Issued (GetTokenBalances alchemyArbitrum "0xUser" ["0xB"])
    ∈ trace
        (getTokenBalance (outage alchemyArbitrum (sample (10 ^ 18))) "0xUser"
           [ {| address := "0xA"; chain := Ethereum |};
             {| address := "0xB"; chain := Arbitrum |};
             {| address := "0xC"; chain := Avalanche |} ])).
  { vm_compute. do 2 apply list_elem_of_further. apply list_elem_of_here. }
  split; [exact H|].
  apply (getTokenBalance_stops_at_failure _ _ _ _ Ethereum H).
  cbn. lia.
Defined.

Lemma getTokenBalance_asks_about_input_witness :
  Issued (BalanceOf "0xB" "0xUser")
    ∈ trace
        (getTokenBalance (sample (10 ^ 18)) "0xUser"
           [ {| address := "0xA"; chain := Ethereum |};
             {| address := "0xB"; chain := Avalanche |} ]) ∧
  "0xUser" = "0xUser" ∧
  {| address := "0xB"; chain := Avalanche |}
    ∈ [ {| address := "0xA"; chain := Ethereum |};
        {| address := "0xB"; chain := Avalanche |} ].
Proof.
  assert (H : Issued (BalanceOf "0xB" "0xUser")
    ∈ trace
        (getTokenBalance (sample (10 ^ 18)) "0xUser"
           [ {| address := "0xA"; chain := Ethereum |};
             {| address := "0xB"; chain := Avalanche |} ])).
  { vm_compute. do 2 apply list_elem_of_further. apply list_elem_of_here. }
  split; [exact H|].
  exact (getTokenBalance_asks_about_input _ _ _ _ H).
Defined.

Lemma getTokenBalance_keeps_avalanche_witness :
  ∃ out,
    run_result
      (getTokenBalance (sample (10 ^ 18)) "0xUser"
         [ {| address := "0xB"; chain := Avalanche |};
           {| address := "0xA"; chain := Ethereum |};
           {| address := "0xNull"; chain := Avalanche |};
           {| address := "0xB"; chain := Avalanche |} ]) = Ok out ∧
    reference <$> filter (λ r, tokenChain r = Avalanche) out
    = filter (λ x, chain x = Avalanche)
        [ {| address := "0xB"; chain := Avalanche |};
          {| address := "0xA"; chain := Ethereum |};
          {| address := "0xNull"; chain := Avalanche |};
          {| address := "0xB"; chain := Avalanche |} ].
Proof.
  eexists. split; [vm_compute; reflexivity|].
  apply (getTokenBalance_keeps_avalanche (sample (10 ^ 18)) "0xUser").
  vm_compute. reflexivity.
Defined.


(** ** From the provider's response to the output *)

(** X15: end to end on an Alchemy chain: in the output of a successful
    call, the records of an Alchemy chain that has tokens are exactly the
    normalized response of that chain's provider to the one batched request
    made for it; nothing else is added, reordered or dropped on the way. *)
Theorem getTokenBalance_alchemy_records (env : Providers) (u : UserAddress)
    (l : list TokenContractAddress) (out : list AccountCurrentTokenBalance)
    (c : Chain) (response : TokenBalancesResponse) :
  c ≠ Avalanche →
  tokensOf c l ≠ [] →
  core_getTokenBalances env (provider_of c) u (tokensOf c l) = Ok response →
  run_result (getTokenBalance env u l) = Ok out →
  processTokenBalancesResponse response c
  = Ok (filter (λ r, tokenChain r = c) out).
Proof.
  intros Hc Hne Hresp Hout.
  apply (getTokenBalance_chain_records _ _ _ _ c) in Hout.
  revert Hout. unfold batch.
  destruct (tokensOf c l) as [|a toks] eqn:E; [done|].
  intros (response' & Hresp' & HN)%fetch_alchemy; [|done].
  rewrite Hresp in Hresp'. injection Hresp' as <-.
  destruct (processTokenBalancesResponse_Normalized response c)
    as (data & -> & HN').
  f_equal. by eapply Normalized_functional.
Qed.

Lemma getTokenBalance_alchemy_records_witness :
  ∃ out,
    run_result
      (getTokenBalance (sample (10 ^ 18)) "0xUser"
         [ {| address := "0xNull"; chain := Optimism |};
           {| address := "0xB"; chain := Avalanche |};
           {| address := "0xA"; chain := Optimism |} ]) = Ok out ∧
    tokenAddress <$> out = ["0xA"; "0xB"] ∧
    processTokenBalancesResponse
      {| tokenBalances :=
           [ {| contractAddress := "0xNull"; tokenBalance := None |};
             {| contractAddress := "0xA"; tokenBalance := Some (10 ^ 18) |} ] |}
      Optimism
    = Ok (filter (λ r, tokenChain r = Optimism) out).
Proof.
  eexists. split; [vm_compute; reflexivity|]. split; [reflexivity|].
  apply (getTokenBalance_alchemy_records (sample (10 ^ 18)) "0xUser"
           [ {| address := "0xNull"; chain := Optimism |};
             {| address := "0xB"; chain := Avalanche |};
             {| address := "0xA"; chain := Optimism |} ]).
  - discriminate.
  - discriminate.
  - reflexivity.
  - vm_compute. reflexivity.
Defined.

(** ** Whole amounts are converted exactly *)

Module ExactFacts.
Import Js.

Lemma Zdigits2_log2 (n : Z) : 0 < n → Zdigits2 n = Z.log2 n + 1.
Proof.
  destruct n as [|p|p]; try lia. intros _. cbn [Zdigits2].
  assert (H : digits2_pos p = Pos.size p).
  { induction p; cbn; by rewrite ?IHp. }
  rewrite H. destruct p; cbn [Z.log2 Pos.size]; lia.
Qed.

Lemma Zdigits2_mul_pow2 (n k : Z) :
  0 < n → 0 <= k → Zdigits2 (n * 2 ^ k) = Zdigits2 n + k.
Proof.
  intros Hn Hk. rewrite !Zdigits2_log2 by nia.
  rewrite Z.log2_mul_pow2 by done. lia.
Qed.

Lemma digits_value_acc (d : Decimal.uint) (acc : positive) :
  fold_left digit_step (list_ascii_of_string (NilEmpty.string_of_uint d)) (Npos acc)
  = Npos (Pos.of_uint_acc d acc).
Proof.
  revert acc; induction d; intros acc; cbn [NilEmpty.string_of_uint list_ascii_of_string fold_left Pos.of_uint_acc]; try done;
  rewrite <- IHd; f_equal; unfold digit_step;
  match goal with
  | |- context [digit_value ?c] =>
      let v := eval vm_compute in (digit_value c) in
      change (digit_value c) with v
  end; lia.
Qed.

Lemma digits_value_uint (d : Decimal.uint) :
  digits_value (list_ascii_of_string (NilEmpty.string_of_uint d)) = N.of_uint d.
Proof.
  unfold digits_value, N.of_uint. change (fun acc c => (10 * acc + digit_value c)%N) with digit_step.
  induction d; cbn [NilEmpty.string_of_uint list_ascii_of_string fold_left Pos.of_uint]; try done;
  try (rewrite <- digits_value_acc; f_equal).
Qed.

Lemma digits_value_numeral (n : N) : digits_value (numeral n) = n.
Proof.
  unfold numeral, NilZero.string_of_uint.
  rewrite <- (DecimalN.Unsigned.of_to n) at 2.
  destruct (N.to_uint n) eqn:E; try apply digits_value_uint.
  reflexivity.
Qed.

Lemma shr_fexp_exact (n L s : Z) :
  0 < n → L = Z.log2 n → L <= 52 → s = 52 - L ∨ s = 53 - L →
  shr_fexp prec emax (n * 2 ^ s) (- s) loc_Exact
  = (Build_shr_record (n * 2 ^ (52 - L)) false false, L - 52).
Proof.
  intros Hn HL HL52 Hs.
  assert (0 <= L) by (subst L; apply Z.log2_nonneg).
  unfold shr_fexp. rewrite Zdigits2_mul_pow2, Zdigits2_log2 by lia.
  unfold fexp, emin, prec, emax. rewrite <- HL.
  replace (Z.max (L + 1 + s + - s - 53) (3 - 1024 - 53) - - s)
    with (L - 52 + s) by lia.
  destruct Hs as [-> | ->].
  - replace (L - 52 + (52 - L)) with 0 by lia. cbn [shr shr_record_of_loc].
    f_equal. lia.
  - replace (L - 52 + (53 - L)) with 1 by lia.
    cbn [shr shr_record_of_loc SpecFloat.iter_pos].
    replace (n * 2 ^ (53 - L)) with (2 * (n * 2 ^ (52 - L))).
    2: { replace (53 - L) with (Z.succ (52 - L)) by lia.
         rewrite Z.pow_succ_r by lia. lia. }
    assert (Hpos : 0 < n * 2 ^ (52 - L)) by (apply Z.mul_pos_pos; [lia|apply Z.pow_pos_nonneg; lia]).
    destruct (n * 2 ^ (52 - L)) as [|q|q]; try lia.
    cbn. f_equal. lia.
Qed.

Lemma binary_round_aux_exact (n L s : Z) :
  0 < n → L = Z.log2 n → L <= 52 → s = 52 - L ∨ s = 53 - L →
  binary_round_aux prec emax false (n * 2 ^ s) (- s) loc_Exact
  = S754_finite false (Z.to_pos (n * 2 ^ (52 - L))) (L - 52).
Proof.
  intros Hn HL HL52 Hs.
  assert (0 <= L) by (subst L; apply Z.log2_nonneg).
  unfold binary_round_aux. rewrite (shr_fexp_exact n L s) by done.
  cbn [shr_m loc_of_shr_record round_nearest_even].
  replace (L - 52) with (- (52 - L)) at 1 by lia.
  rewrite (shr_fexp_exact n L (52 - L)) by auto.
  cbn [shr_m].
  assert (Hpos : 0 < n * 2 ^ (52 - L)) by (apply Z.mul_pos_pos; [lia|apply Z.pow_pos_nonneg; lia]).
  destruct (n * 2 ^ (52 - L)) as [|q|q]; try lia.
  assert (E : (L - 52 <=? emax - prec) = true) by (apply Z.leb_le; unfold emax, prec; lia).
  rewrite E. reflexivity.
Qed.

(** Ten times a natural below [2^53], divided by ten. *)
Lemma of_ratio_ten (n : Z) :
  0 < n < 2 ^ 53 →
  of_ratio false (Z.to_N (10 * n)) 10
  = S754_finite false (Z.to_pos (n * 2 ^ (52 - Z.log2 n))) (Z.log2 n - 52).
Proof.
  intros Hn. set (L := Z.log2 n).
  assert (HL : 0 <= L <= 52).
  { split; [apply Z.log2_nonneg|]. apply Z.lt_succ_r, Z.log2_lt_pow2; lia. }
  destruct (Z.to_N (10 * n)) as [|p] eqn:Ep; [lia|].
  assert (Hp : Z.pos p = 10 * n) by lia.
  unfold of_ratio, SFdiv, SFdiv_core_binary.
  change IntDef.Z.sub with Z.sub. change IntDef.Z.add with Z.add.
  change IntDef.Z.min with Z.min. change IntDef.Z.shiftl with Z.shiftl.
  change IntDef.Z.div_eucl with Z.div_eucl.
  rewrite Hp. 
  assert (Hd1 : Zdigits2 (10 * n) = L + 4 ∨ Zdigits2 (10 * n) = L + 5).
  { rewrite Zdigits2_log2 by lia.
    assert (L + 3 <= Z.log2 (10 * n)).
    { replace (L + 3) with (Z.log2 (n * 2 ^ 3)) by (rewrite Z.log2_mul_pow2; lia).
      apply Z.log2_le_mono. lia. }
    assert (Z.log2 (10 * n) <= L + 4).
    { replace (L + 4) with (Z.log2 (n * 2 ^ 4)) by (rewrite Z.log2_mul_pow2; lia).
      apply Z.log2_le_mono. lia. }
    lia. }
  change (Zdigits2 10) with 4.
  set (d1 := Zdigits2 (10 * n)) in *.
  unfold fexp, emin, prec, emax.
  change IntDef.Z.sub with Z.sub. change IntDef.Z.max with Z.max.
  replace (Z.min (Z.max (d1 + 0 - (4 + 0) - 53) (3 - 1024 - 53)) (0 - 0)) with (d1 - 57) by lia.
  replace (0 - 0 - (d1 - 57)) with (57 - d1) by lia.
  assert (Hm' : match 57 - d1 with
                | 0 => 10 * n
                | Z.pos _ => Z.shiftl (10 * n) (57 - d1)
                | Z.neg _ => 0
                end = (n * 2 ^ (57 - d1)) * 10).
  { destruct (57 - d1) as [|q|q] eqn:E; try lia.
    rewrite Z.shiftl_mul_pow2 by lia. lia. }
  rewrite Hm'.
  assert (Hdiv : Z.div_eucl (n * 2 ^ (57 - d1) * 10) 10 = (n * 2 ^ (57 - d1), 0)).
  { pose proof (Z.div_mul (n * 2 ^ (57 - d1)) 10 ltac:(lia)) as Hq.
    pose proof (Z.mod_mul (n * 2 ^ (57 - d1)) 10 ltac:(lia)) as Hr.
    unfold Z.div, Z.modulo in *.
    destruct (Z.div_eucl (n * 2 ^ (57 - d1) * 10) 10). by subst. }
  rewrite Hdiv. change (new_location 10 0) with loc_Exact.
  change (xorb false false) with false.
  replace (d1 - 57) with (- (57 - d1)) by lia.
  apply binary_round_aux_exact; try lia. 
Qed.

Lemma digits_value_app (l1 l2 : list ascii) :
  digits_value (l1 ++ l2)
  = fold_left (fun acc c => (10 * acc + digit_value c)%N) l2 (digits_value l1).
Proof. unfold digits_value. apply fold_left_app. Qed.

(** [parseFloat] on a decimal literal with a whole part and a fraction. *)
Lemma parseFloat_decimal (whole frac : list ascii) :
  whole ≠ [] →
  forallb is_digit whole = true →
  forallb is_digit frac = true →
  parseFloat (string_of_list_ascii (whole ++ "."%char :: frac))
  = of_ratio false (digits_value (whole ++ frac)) (pow10 (length frac)).
Proof.
  intros Hne Hw Hf. unfold parseFloat.
  rewrite list_ascii_of_string_of_list_ascii.
  destruct whole as [|c w]; [done|].
  assert (Hc : is_digit c = true) by (by apply andb_true_iff in Hw as [? _]).
  assert (Hsign : match (c :: w) ++ "."%char :: frac with
                  | "-"%char :: r => (true, r)
                  | "+"%char :: r => (false, r)
                  | _ => (false, (c :: w) ++ "."%char :: frac)
                  end = (false, (c :: w) ++ "."%char :: frac)).
  { destruct c as [[] [] [] [] [] [] [] []]; try reflexivity; done. }
  rewrite Hsign, JsFacts.span_digits_point by done.
  rewrite NumberFacts.span_digits_all by done. cbn [fst].
  reflexivity.
Qed.

Lemma formatEther_whole (n : Z) :
  0 <= n →
  Ethers.formatEther (n * 10 ^ 18)
  = string_of_list_ascii (numeral (Z.to_N n) ++ ["."%char; "0"%char]).
Proof.
  intros Hn. unfold Ethers.formatEther, Ethers.formatFixed.
  change (Z.of_nat 18) with 18.
  assert (E : (n * 10 ^ 18 <? 0) = false) by (apply Z.ltb_ge; lia).
  rewrite E, Z.mod_mul, Z.div_mul by lia.
  reflexivity.
Qed.

(** A whole number of tokens below [2^53] is read back exactly. *)
Lemma parseFloat_formatEther_whole (n : Z) :
  0 <= n < 2 ^ 53 →
  represents (parseFloat (Ethers.formatEther (n * 10 ^ 18))) n = true.
Proof.
  intros Hn. rewrite formatEther_whole by lia.
  rewrite parseFloat_decimal;
    [|apply NumberFacts.numeral_nonempty|apply JsFacts.numeral_digits|done].
  rewrite digits_value_app, digits_value_numeral.
  cbn [fold_left length]. change (digit_value "0") with 0%N.
  change (pow10 1) with 10%positive.
  replace (10 * Z.to_N n + 0)%N with (Z.to_N (10 * n)) by lia.
  destruct (Z.eq_dec n 0) as [-> | Hn0]; [reflexivity|].
  rewrite of_ratio_ten by lia.
  set (L := Z.log2 n).
  assert (HL : 0 <= L <= 52).
  { split; [apply Z.log2_nonneg|]. apply Z.lt_succ_r, Z.log2_lt_pow2; lia. }
  assert (Hpos : 0 < n * 2 ^ (52 - L))
    by (apply Z.mul_pos_pos; [lia | apply Z.pow_pos_nonneg; lia]).
  unfold represents, num_of, den_of.
  rewrite Z2Pos.id by done.
  rewrite Z.max_r, Z.max_l by lia.
  apply Z.eqb_eq. replace (- (L - 52)) with (52 - L) by lia. cbn. lia.
Qed.

Lemma string_of_uint_to_list (d : Decimal.uint) :
  list_ascii_of_string (NilEmpty.string_of_uint d)
  = map digit_char (DecimalFacts.to_list d).
Proof. induction d; cbn; by rewrite ?IHd. Qed.

Lemma numeral_pos (p : positive) :
  numeral (Npos p) = map digit_char (List.rev (DecimalFacts.to_list (Pos.to_little_uint p))).
Proof.
  unfold numeral, NilZero.string_of_uint. cbn [N.to_uint].
  pose proof (DecimalPos.Unsigned.to_uint_nonnil p) as Hnil.
  destruct (Pos.to_uint p) eqn:E; [done|..];
    rewrite <- E, string_of_uint_to_list; unfold Pos.to_uint;
    by rewrite DecimalFacts.rev_spec.
Qed.

Lemma numeral_tenfold (n : N) :
  (0 < n)%N → numeral (10 * n) = numeral n ++ ["0"%char].
Proof.
  destruct n as [|p]; [lia|]. intros _.
  change (10 * N.pos p)%N with (N.pos (10 * p)).
  rewrite !numeral_pos.
  pose proof (DecimalPos.Unsigned.to_ldec_tenfold p) as H.
  cbn [DecimalPos.Unsigned.to_lu] in H.
  change (10 * N.pos p)%N with (N.pos (10 * p)) in H. cbn [DecimalPos.Unsigned.to_lu] in H.
  rewrite H. cbn [DecimalFacts.to_list List.rev]. by rewrite map_app.
Qed.

Lemma numeral_e5 (n : N) :
  (0 < n)%N → numeral (n * 100000) = numeral n ++ repeat "0"%char 5.
Proof.
  intros Hn.
  replace (n * 100000)%N with (10 * (10 * (10 * (10 * (10 * n)))))%N by lia.
  rewrite !numeral_tenfold by lia. by rewrite <- !app_assoc.
Qed.

Lemma fixed_digits_whole (n : Z) :
  0 <= n →
  fixed_digits (n * 10 ^ 5) 5
  = numeral (Z.to_N n) ++ "."%char :: repeat "0"%char 5.
Proof.
  intros Hn. unfold fixed_digits.
  destruct (Z.eq_dec n 0) as [-> | Hn0]; [reflexivity|].
  replace (Z.to_N (n * 10 ^ 5)) with (Z.to_N n * 100000)%N by lia.
  rewrite numeral_e5 by lia.
  assert (Hne : numeral (Z.to_N n) ≠ []) by apply NumberFacts.numeral_nonempty.
  set (w := numeral (Z.to_N n)) in *.
  assert (Hlen : length (w ++ repeat "0"%char 5) = (length w + 5)%nat)
    by (rewrite length_app, repeat_length; done).
  assert (Hw : (0 < length w)%nat) by (destruct w; [done | cbn; lia]).
  unfold pad_zeros. rewrite Hlen.
  replace (5 + 1 - (length w + 5))%nat with 0%nat by lia.
  change (zeros 0) with (@nil ascii). cbn [app]. rewrite Hlen.
  replace (length w + 5 - 5)%nat with (length w + 0)%nat by lia.
  rewrite take_app_add, drop_app_add. cbn. by rewrite app_nil_r.
Qed.

(** [toFixed(5)] of a whole number of units below [2^53]. *)
Lemma toFixed_whole (n : Z) :
  0 <= n < 2 ^ 53 →
  toFixed (parseFloat (Ethers.formatEther (n * 10 ^ 18))) 5
  = string_of_list_ascii (numeral (Z.to_N n) ++ "."%char :: repeat "0"%char 5).
Proof.
  intros Hn. rewrite formatEther_whole by lia.
  rewrite parseFloat_decimal;
    [|apply NumberFacts.numeral_nonempty|apply JsFacts.numeral_digits|done].
  rewrite digits_value_app, digits_value_numeral.
  cbn [fold_left length]. change (digit_value "0") with 0%N.
  change (pow10 1) with 10%positive.
  replace (10 * Z.to_N n + 0)%N with (Z.to_N (10 * n)) by lia.
  destruct (Z.eq_dec n 0) as [-> | Hn0]; [reflexivity|].
  rewrite of_ratio_ten by lia.
  set (L := Z.log2 n).
  assert (HL : 0 <= L <= 52).
  { split; [apply Z.log2_nonneg|]. apply Z.lt_succ_r, Z.log2_lt_pow2; lia. }
  assert (Hden : 0 < 2 ^ (52 - L)) by (apply Z.pow_pos_nonneg; lia).
  assert (Hpos : 0 < n * 2 ^ (52 - L)) by (apply Z.mul_pos_pos; lia).
  unfold toFixed, nearest_scaled, num_of, den_of.
  rewrite Z2Pos.id by done. rewrite (Z.max_l (- (L - 52)) 0), (Z.max_r (L - 52) 0) by lia.
  replace (- (L - 52)) with (52 - L) by lia.
  set (den := 2 ^ (52 - L)) in *.
  change (2 ^ 0) with 1. rewrite Z.mul_1_r.
  assert (E : (10 ^ 21 * den <=? n * den) = false).
  { apply Z.leb_gt. apply Z.mul_lt_mono_pos_r; lia. }
  rewrite E. change (Z.of_nat 5) with 5.
  replace (2 * (n * den) * 10 ^ 5 + den) with (n * 10 ^ 5 * (2 * den) + den) by lia.
  rewrite Z.div_add_l by lia. rewrite Z.div_small by lia. rewrite Z.add_0_r.
  rewrite fixed_digits_whole by lia. reflexivity.
Qed.

Lemma drop_zeros_zeros (k : nat) : Ethers.drop_zeros (zeros k) = [].
Proof. induction k; [done|]. exact IHk. Qed.

Lemma rev_zeros (k : nat) : rev (zeros k) = zeros k.
Proof.
  unfold zeros. induction k; [done|]. cbn [repeat rev].
  rewrite IHk. symmetry. apply repeat_cons.
Qed.

Lemma strip_trailing_zeros_zeros (k : nat) :
  Ethers.strip_trailing_zeros (zeros k) = ["0"%char].
Proof.
  unfold Ethers.strip_trailing_zeros. by rewrite rev_zeros, drop_zeros_zeros.
Qed.

(** [formatFixed] of a whole number of units, whatever the precision. *)
Lemma formatFixed_whole (n : Z) (d : nat) :
  0 <= n →
  Ethers.formatFixed (n * 10 ^ Z.of_nat d) d
  = string_of_list_ascii
      (numeral (Z.to_N n) ++
       match d with O => [] | _ => ["."%char; "0"%char] end).
Proof.
  intros Hn. unfold Ethers.formatFixed.
  assert (Hm : 0 < 10 ^ Z.of_nat d) by (apply Z.pow_pos_nonneg; lia).
  assert (E : (n * 10 ^ Z.of_nat d <? 0) = false) by (apply Z.ltb_ge; lia).
  rewrite E, Z.mod_mul, Z.div_mul by lia.
  destruct d as [|d']; [by rewrite app_nil_r|].
  change (numeral (Z.to_N 0)) with (zeros 1).
  assert (Hpad : pad_zeros (S d') (zeros 1) = zeros (S d')).
  { unfold pad_zeros, zeros. cbn [length repeat].
    replace (S d' - 1)%nat with d' by lia.
    symmetry. apply repeat_cons. }
  by rewrite Hpad, strip_trailing_zeros_zeros.
Qed.

End ExactFacts.

(** X16: a balance of a whole number [n] of tokens (of 18 decimals) below
    [2^53], reported by the provider, comes out of
    [processTokenBalancesResponse] as the number [n] exactly, in a record
    for the contract it was reported for. *)
Theorem processTokenBalancesResponse_whole_tokens
    (response : TokenBalancesResponse) (c : Chain) (b : TokenBalance) (n : Z) :
  b ∈ tokenBalances response →
  tokenBalance b = Some (n * 10 ^ 18) →
  0 <= n < 2 ^ 53 →
  ∃ out x,
    processTokenBalancesResponse response c = Ok out ∧
    {| tokenAddress := contractAddress b; tokenChain := c;
       balance := Js.Num x |} ∈ out ∧
    Js.represents x n = true.
Proof.
  intros Hin Hb Hn.
  destruct (processTokenBalancesResponse_Normalized response c)
    as (out & Hout & HN).
  exists out, (Js.parseFloat (Ethers.formatEther (n * 10 ^ 18))).
  split; [done|].
  split; [|by apply ExactFacts.parseFloat_formatEther_whole].
  clear Hout. revert Hin.
  induction HN as [|tb l out E _ IH|tb raw l out E _ IH]; intros Hin.
  - by apply elem_of_nil in Hin.
  - apply elem_of_cons in Hin as [->|Hin]; [congruence|auto].
  - apply elem_of_cons in Hin as [->|Hin].
    + rewrite Hb in E. injection E as <-. apply elem_of_cons. by left.
    + apply elem_of_cons. right. auto.
Qed.

Lemma processTokenBalancesResponse_whole_tokens_witness :
  ∃ out x,
    processTokenBalancesResponse
      {| tokenBalances :=
           [ {| contractAddress := "0xNull"; tokenBalance := None |};
             {| contractAddress := "0xA";
                tokenBalance := Some (2500 * 10 ^ 18) |} ] |}
      Arbitrum = Ok out ∧
    {| tokenAddress := "0xA"; tokenChain := Arbitrum;
       balance := Js.Num x |} ∈ out ∧
    Js.represents x 2500 = true.
Proof.
  apply (processTokenBalancesResponse_whole_tokens
           {| tokenBalances :=
                [ {| contractAddress := "0xNull"; tokenBalance := None |};
                  {| contractAddress := "0xA";
                     tokenBalance := Some (2500 * 10 ^ 18) |} ] |}
           Arbitrum
           {| contractAddress := "0xA";
              tokenBalance := Some (2500 * 10 ^ 18) |} 2500).
  - apply elem_of_cons. right. apply elem_of_cons. by left.
  - reflexivity.
  - lia.
Defined.

(** X17: when every chain reports a balance of a whole number of units
    below [2^53], [getBalance] returns, for each chain, the decimal numeral
    of that number followed by [.00000]: nothing is lost or rounded. *)
Theorem getBalance_whole_units (env : Providers) (u : UserAddress)
    (n : Provider → Z) :
  (∀ p, 0 <= n p < 2 ^ 53 ∧ core_getBalance env p u = Ok (n p * 10 ^ 18)) →
  let shown := λ p,
    string_of_list_ascii
      (Js.numeral (Z.to_N (n p)) ++ list_ascii_of_string ".00000") in
  run_result (getBalance env u)
  = Ok {| eth := shown alchemyEthereum; arb := shown alchemyArbitrum;
          op := shown alchemyOptimism; avax := shown providerAvalanche |}.
Proof.
  intros H shown.
  destruct (H alchemyEthereum) as (H1 & E1).
  destruct (H alchemyArbitrum) as (H2 & E2).
  destruct (H alchemyOptimism) as (H3 & E3).
  destruct (H providerAvalanche) as (H4 & E4).
  unfold getBalance, getBalance_call, await, issue.
  rewrite E1, E2, E3, E4. cbn [run_result].
  unfold run_result; cbn -[Js.toFixed Js.parseFloat Ethers.formatEther Z.pow Z.mul].
  by rewrite !ExactFacts.toFixed_whole.
Qed.

Lemma getBalance_whole_units_witness :
  run_result (getBalance (sample (1234 * 10 ^ 18)) "0xUser")
  = Ok {| eth := "1234.00000"; arb := "1234.00000";
          op := "1234.00000"; avax := "1234.00000" |}.
Proof.
  apply (getBalance_whole_units (sample (1234 * 10 ^ 18)) "0xUser"
           (λ _, 1234)).
  intros p. split; [lia | reflexivity].
Defined.

(** X18: on the Avalanche path the precision is the token's own: when the
    contract reports [d] decimals (at most 256) and a balance of a whole
    number [n] of tokens, the promise of the contract's callback is
    fulfilled with the decimal numeral of [n], followed by [.0] unless
    [d] is zero; the balance is a string, whatever [n] is. *)
Theorem tokenCallback_whole_tokens (env : Providers) (u a : string)
    (n : Z) (d : N) :
  0 <= n →
  (d <= 256)%N →
  contract_balanceOf env a u = Ok (n * 10 ^ Z.of_N d) →
  contract_decimals env a = Ok d →
  ∃ p,
    run_result (tokenCallback env u a) = Ok p ∧
    outcome p
    = Ok {| tokenAddress := a; tokenChain := Avalanche;
            balance :=
              Js.Str (string_of_list_ascii
                        (Js.numeral (Z.to_N n) ++
                         if (d =? 0)%N then [] else ["."%char; "0"%char])) |}.
Proof.
  intros Hn Hd Hb Hdec. rewrite tokenCallback_run.
  eexists. split; [reflexivity|].
  change (outcome (contractPromise env u a)) with (contractOutcome env u a).
  rewrite contractOutcome_answers, Hb, Hdec. unfold Ethers.formatUnits.
  apply N.leb_le in Hd.
  replace (Z.of_N d) with (Z.of_nat (N.to_nat d)) by lia.
  cbn. rewrite Hd. cbn.
  rewrite ExactFacts.formatFixed_whole by done.
  do 3 f_equal. destruct d as [|q]; [done|].
  cbn [N.eqb]. destruct (N.to_nat (N.pos q)) eqn:E; [lia|done].
Qed.

Lemma tokenCallback_whole_tokens_witness :
  ∃ p,
    run_result
      (tokenCallback
         {| core_getBalance := λ _ _, Ok 0;
            core_getTokenBalances := λ _ _ _, Throw "unused";
            contract_balanceOf := λ _ _, Ok (42 * 10 ^ 6);
            contract_decimals := λ _, Ok 6%N;
            arrival := λ _, 1%nat |}
         "0xUser" "0xUSDC") = Ok p ∧
    outcome p
    = Ok {| tokenAddress := "0xUSDC"; tokenChain := Avalanche;
            balance := Js.Str "42.0" |}.
Proof.
  apply (tokenCallback_whole_tokens
           {| core_getBalance := λ _ _, Ok 0;
              core_getTokenBalances := λ _ _ _, Throw "unused";
              contract_balanceOf := λ _ _, Ok (42 * 10 ^ 6);
              contract_decimals := λ _, Ok 6%N;
              arrival := λ _, 1%nat |}
           "0xUser" "0xUSDC" 42 6%N); [lia | lia | reflexivity | reflexivity].
Defined.

(** * Causes, order and routing *)

(** ** Which failure rejects an Avalanche batch *)

Section Failures.

Variable env : Providers.

(** A rejected contract promise is rejected by one of the contract's
    rejections, at the instant of that rejection. *)
Lemma contractPromise_rejected (u a e : string) :
  outcome (contractPromise env u a) = Throw e →
  (settled (contractPromise env u a), e) ∈ rejections env u a.
Proof.
  unfold contractPromise, Promise_then, Promise_all2, rejections.
  cbn [pending outcome settled].
  destruct (contract_balanceOf env a u) as [b|eb];
    destruct (contract_decimals env a) as [d|ed]; cbn [pending outcome settled].
  - cbn -[Ethers.formatUnits].
    destruct (Ethers.formatUnits b d) as [s|ef]; [done|].
    intros [= <-]. apply list_elem_of_here.
  - intros [= <-]. apply list_elem_of_here.
  - intros [= <-]. apply list_elem_of_here.
  - destruct (_ <=? _)%nat; cbn [pending outcome settled]; intros [= <-].
    + apply list_elem_of_here.
    + apply list_elem_of_further, list_elem_of_here.
Qed.

(** Every rejection of a contract rejects its promise, no later than it
    happens. *)
Lemma rejections_rejected (u a : string) (t : nat) (e : string) :
  (t, e) ∈ rejections env u a →
  isOk (outcome (contractPromise env u a)) = false ∧
  (settled (contractPromise env u a) ≤ t)%nat.
Proof.
  unfold contractPromise, Promise_then, Promise_all2, rejections.
  cbn [pending outcome settled].
  destruct (contract_balanceOf env a u) as [b|eb];
    destruct (contract_decimals env a) as [d|ed]; cbn [pending outcome settled].
  - cbn -[Ethers.formatUnits].
    destruct (Ethers.formatUnits b d) as [s|ef].
    + by intros ?%elem_of_nil.
    + intros [= -> ->]%list_elem_of_singleton. done.
  - intros [= -> ->]%list_elem_of_singleton. done.
  - intros [= -> ->]%list_elem_of_singleton. done.
  - destruct (_ <=? _)%nat eqn:E; cbn [pending outcome settled];
      [apply Nat.leb_le in E | apply Nat.leb_gt in E];
      rewrite !elem_of_cons, elem_of_nil;
      intros [[= -> ->] | [[= -> ->] | []]]; split; (done || lia).
Qed.

(** The reason of a rejected Avalanche batch is the first rejection in
    time among those of its contracts. *)
Lemma fetch_avalanche_Throw (u : string) (tokens : list string)
    (cause : string) :
  fetch env Avalanche u tokens = Throw cause →
  ∃ a t,
    a ∈ tokens ∧ (t, cause) ∈ rejections env u a ∧
    ∀ a' t' e',
      a' ∈ tokens → (t', e') ∈ rejections env u a' → (t ≤ t')%nat.
Proof.
  cbn [fetch]. unfold batchPromise.
  intros (p & (a & -> & Ha)%list_elem_of_fmap & Hp & Hmin)%Promise_all_Throw.
  exists a, (settled (contractPromise env u a)).
  split; [done|]. split; [by apply contractPromise_rejected|].
  intros a' t' e' Ha' (Hf & Hle)%rejections_rejected.
  etransitivity; [|exact Hle]. apply Hmin; [|done].
  by apply list_elem_of_fmap_2.
Qed.

Lemma batch_first_failure (c : Chain) (u : string)
    (l : list TokenContractAddress) (cause : string) :
  batch env c u l = Throw cause → first_failure env c u l cause.
Proof.
  unfold batch, first_failure.
  destruct (tokensOf c l) as [|a toks] eqn:E; [done|].
  assert (Hne : tokensOf c l ≠ []) by (by rewrite E).
  rewrite <- E. clear E.
  destruct (decide (c = Avalanche)) as [-> | Hc].
  { apply fetch_avalanche_Throw. }
  intros Hf.
  assert (H : tokensOf c l ≠ [] ∧
              core_getTokenBalances env (provider_of c) u (tokensOf c l)
              = Throw cause).
  { split; [done|].
    assert (Ef : fetch env c u (tokensOf c l) =
      core_getTokenBalances env (provider_of c) u (tokensOf c l)
        ≫= λ response, processTokenBalancesResponse response c)
      by (by destruct c).
    rewrite Ef in Hf.
    destruct (core_getTokenBalances env (provider_of c) u (tokensOf c l))
      as [response|e]; [|by injection Hf as ->].
    destruct (processTokenBalancesResponse_Normalized response c)
      as (out & Hout & _).
    cbn [mbind Result_bind] in Hf. by rewrite Hout in Hf. }
  by destruct c.
Qed.

End Failures.

(** The rejection that is logged is the first in time, not the first in
    the batch: of two reverting contracts, the second when its answer
    arrives first; of the two requests of one contract, [decimals] when
    its answer arrives first. *)
Example first_rejection_in_time :
  logged
    (trace
       (getTokenBalance racing "0xUser"
          [ {| address := "0xA"; chain := Avalanche |};
            {| address := "0xB"; chain := Avalanche |} ])) = ["errB"] ∧
  logged
    (trace
       (getTokenBalance hollow "0xUser"
          [ {| address := "0xX"; chain := Avalanche |} ])) = ["no decimals"].
Proof. split; reflexivity. Qed.

(** ** What a failing call logs *)

(** C1: for every account and token reference sequence, if the provider
    call of any one chain fails, [getTokenBalance] throws an error with the
    generic message ['Not valid contract_addresses'] and returns no result
    at all, whatever the other chains answered.  The cause is not part of
    the error: it is the last thing written to the console, and the only
    one, and it is the reason for which the fetch of a chain failed: the
    rejection of the batched call of an Alchemy chain or, for an Avalanche
    batch, the rejection that came first in time among those of its
    contracts, wherever that contract stands in the batch. *)
Theorem getTokenBalance_all_or_nothing (env : Providers) (u : UserAddress)
    (l : list TokenContractAddress) (c : Chain) :
  provider_call_fails env c u l →
  run_result (getTokenBalance env u l) = Throw "Not valid contract_addresses" ∧
  ∃ t c' cause,
    first_failure env c' u l cause ∧
    trace (getTokenBalance env u l) = t ++ [ConsoleError cause] ∧
    logged t = [].
Proof.
  intros Hf%provider_call_fails_batch.
  pose proof (getTokenBalance_fails env u l c Hf) as Hr.
  split; [exact Hr|].
  pose proof (getTokenBalance_logged env u l) as Hlog. rewrite Hr in Hlog.
  destruct Hlog as (c1 & cause1 & _ & _ & Hlog).
  destruct (blocks_failure_logged env supportedChains u l [])
    as (t & c' & cause & Hc' & Ht).
  { rewrite <- getTokenBalance_blocks. by rewrite Hr. }
  rewrite <- getTokenBalance_blocks in Ht.
  exists t, c', cause. split; [by apply batch_first_failure|].
  split; [exact Ht|].
  rewrite Ht, logged_app in Hlog. cbn in Hlog.
  destruct (logged t) as [|x k]; [done|].
  destruct k; discriminate Hlog.
Qed.

(** An Ethereum batch that is answered, then two Avalanche contracts that
    both revert: the call fails, the records of Ethereum are lost, and the
    console holds the rejection of ["0xB"], the second contract of the
    batch, whose answer arrived first. *)
Lemma getTokenBalance_all_or_nothing_witness :
  run_result
    (getTokenBalance racing "0xUser"
       [ {| address := "0xE"; chain := Ethereum |};
         {| address := "0xA"; chain := Avalanche |};
         {| address := "0xB"; chain := Avalanche |} ])
  = Throw "Not valid contract_addresses" ∧
  (∃ t c' cause,
     first_failure racing c' "0xUser"
       [ {| address := "0xE"; chain := Ethereum |};
         {| address := "0xA"; chain := Avalanche |};
         {| address := "0xB"; chain := Avalanche |} ] cause ∧
     trace
       (getTokenBalance racing "0xUser"
          [ {| address := "0xE"; chain := Ethereum |};
            {| address := "0xA"; chain := Avalanche |};
            {| address := "0xB"; chain := Avalanche |} ])
     = t ++ [ConsoleError cause] ∧
     logged t = []) ∧
  logged
    (trace
       (getTokenBalance racing "0xUser"
          [ {| address := "0xE"; chain := Ethereum |};
            {| address := "0xA"; chain := Avalanche |};
            {| address := "0xB"; chain := Avalanche |} ]))
  = ["errB"].
Proof.
  destruct (getTokenBalance_all_or_nothing racing "0xUser"
              [ {| address := "0xE"; chain := Ethereum |};
                {| address := "0xA"; chain := Avalanche |};
                {| address := "0xB"; chain := Avalanche |} ] Avalanche)
    as [Hr Hlog].
  { exists "0xA". split; [|by left].
    apply list_elem_of_here. }
  split; [exact Hr|]. split; [exact Hlog|]. reflexivity.
Defined.

(** X5: [getTokenBalance] writes to the console only when it fails, and
    then exactly once: a call that returns has logged nothing; a call that
    throws has logged one cause, the reason for which the fetch of one
    chain failed (for an Avalanche batch, the rejection that came first in
    time), every chain before that one having answered. *)
Theorem getTokenBalance_logs_once (env : Providers) (u : UserAddress)
    (l : list TokenContractAddress) :
  match run_result (getTokenBalance env u l) with
  | Ok _ => logged (trace (getTokenBalance env u l)) = []
  | Throw _ =>
      ∃ c cause,
        first_failure env c u l cause ∧
        (∀ c', (rank c' < rank c)%nat → chain_answers env c' u l) ∧
        logged (trace (getTokenBalance env u l)) = [cause]
  end.
Proof.
  pose proof (getTokenBalance_logged env u l) as H.
  destruct (run_result (getTokenBalance env u l)); [exact H|].
  destruct H as (c & cause & Hc & Hbefore & Hlog).
  exists c, cause. split; [by apply batch_first_failure|].
  split; [|exact Hlog].
  intros c' Hr. apply batch_isOk. by apply Hbefore.
Qed.

(** ** The order of the queries and of the fetches *)

Lemma filter_all {A} (P : A → Prop) `{∀ x, Decision (P x)} (l : list A) :
  Forall P l → filter P l = l.
Proof.
  induction 1 as [|x l Hx _ IH]; [done|].
  by rewrite filter_cons, decide_True, IH.
Qed.

Lemma exchanges_bind (cs : list Chain) (f : Chain → list Event) :
  exchanges (cs ≫= f) = cs ≫= λ c, exchanges (f c).
Proof.
  unfold exchanges. induction cs as [|c cs IH]; [done|].
  by rewrite !bind_cons, filter_app, IH.
Qed.

Lemma chainEvents_requests (c : Chain) (u : string) (tokens : list string) :
  chainEvents c u tokens
  = (Issued <$> requests c u tokens) ++ [Awaited (requests c u tokens)].
Proof. by destruct c. Qed.

Lemma exchanges_blockEvents (env : Providers) (c : Chain) (u : string)
    (l : list TokenContractAddress) :
  exchanges (blockEvents env c u l)
  = match tokensOf c l with
    | [] => []
    | tokens => chainEvents c u tokens
    end.
Proof.
  unfold blockEvents, blockTrace.
  destruct (tokensOf c l) as [|a toks]; [done|].
  rewrite chainEvents_requests.
  generalize (requests c u (a :: toks)) as rs. intros rs.
  unfold exchanges. rewrite filter_app, filter_cons, decide_True by done.
  rewrite filter_all.
  - f_equal. f_equal. by destruct (fetch env c u (a :: toks)).
  - apply Forall_fmap, Forall_forall. done.
Qed.

(** A chain is fetched exactly when every chain before it has been
    fetched with success. *)
Lemma ran_reached (env : Providers) (u : string)
    (l : list TokenContractAddress) (c : Chain) :
  (∀ c', (rank c' < rank c)%nat → isOk (batch env c' u l) = true) →
  c ∈ ran env supportedChains u l.
Proof.
  intros H. unfold supportedChains. cbn [ran].
  destruct c.
  - apply list_elem_of_here.
  - rewrite (H Ethereum) by (cbn; lia).
    apply list_elem_of_further, list_elem_of_here.
  - rewrite (H Ethereum), (H Arbitrum) by (cbn; lia).
    do 2 apply list_elem_of_further. apply list_elem_of_here.
  - rewrite (H Ethereum), (H Arbitrum), (H Optimism) by (cbn; lia).
    do 3 apply list_elem_of_further. apply list_elem_of_here.
Qed.

Lemma ran_iff (env : Providers) (u : string)
    (l : list TokenContractAddress) (c : Chain) :
  c ∈ ran env supportedChains u l ↔
  ∀ c', (rank c' < rank c)%nat → chain_answers env c' u l.
Proof.
  split.
  - intros H c' Hr. apply batch_isOk. by eapply ran_before.
  - intros H. apply ran_reached. intros c' Hr. apply batch_isOk. auto.
Qed.

Lemma ran_returns (env : Providers) (u : string)
    (l : list TokenContractAddress) :
  isOk (run_result (getTokenBalance env u l)) = true →
  ran env supportedChains u l = supportedChains.
Proof.
  rewrite getTokenBalance_blocks, blocks_result. intros H.
  apply ran_all. by destruct (mapM _ _).
Qed.

(** C6, as amended: [getBalance] queries the four adapters in the order
    Ethereum, Arbitrum, Optimism, Avalanche, one after another: each query
    is awaited before the next is issued, and an adapter is queried only if
    those before it have answered (all four when the call returns).
    [getTokenBalance] fetches chain after chain in the same order, the
    chains with tokens only: the requests of a chain are issued and awaited
    before any request of the next chain is issued, and a chain is fetched
    exactly when the chains before it have answered (all four when the call
    returns).  Within the Avalanche batch alone the requests of all the
    contracts are issued before the one await of them all.  So whenever a
    request is issued, every request issued before it and not yet awaited
    goes to the same chain. *)
Theorem fetches_awaited_in_turn (env : Providers) (u : UserAddress)
    (l : list TokenContractAddress) :
  trace (getBalance env u)
  = (queried env u adapters
       ≫= λ p, [Issued (GetBalance p u); Awaited [GetBalance p u]]) ∧
  (isOk (run_result (getBalance env u)) = true →
   queried env u adapters = adapters) ∧
  exchanges (trace (getTokenBalance env u l))
  = (ran env supportedChains u l
       ≫= λ c, match tokensOf c l with
               | [] => []
               | tokens => chainEvents c u tokens
               end) ∧
  (∀ c, c ∈ ran env supportedChains u l ↔
        ∀ c', (rank c' < rank c)%nat → chain_answers env c' u l) ∧
  (isOk (run_result (getTokenBalance env u l)) = true →
   ran env supportedChains u l = supportedChains) ∧
  in_turn [] (trace (getBalance env u)) = true ∧
  in_turn [] (trace (getTokenBalance env u l)) = true.
Proof.
  split; [|split].
  - unfold getBalance, getBalance_call, await, issue, adapters.
    cbn [queried].
    destruct (core_getBalance env alchemyEthereum u);
      destruct (core_getBalance env alchemyArbitrum u);
      destruct (core_getBalance env alchemyOptimism u);
      destruct (core_getBalance env providerAvalanche u); reflexivity.
  - unfold getBalance, getBalance_call, await, issue, adapters.
    cbn [queried].
    destruct (core_getBalance env alchemyEthereum u);
      destruct (core_getBalance env alchemyArbitrum u);
      destruct (core_getBalance env alchemyOptimism u);
      destruct (core_getBalance env providerAvalanche u); done.
  - split; [|split; [|split; [|split]]].
    + rewrite getTokenBalance_blocks, blocks_trace, exchanges_bind.
      apply list_bind_ext; [|done]. intros c.
      apply exchanges_blockEvents.
    + intros c. apply ran_iff.
    + apply ran_returns.
    + apply Blockwise_in_turn, getBalance_Blockwise.
    + apply Blockwise_in_turn. rewrite getTokenBalance_blocks.
      apply blocks_Blockwise.
Qed.

(** ** The chain router, seen from the providers *)

Lemma issued_getTokenBalance (env : Providers) (u : string)
    (l : list TokenContractAddress) :
  issued (trace (getTokenBalance env u l))
  = ran env supportedChains u l ≫= λ c,
      match tokensOf c l with
      | [] => []
      | tokens => requests c u tokens
      end.
Proof.
  rewrite getTokenBalance_blocks, blocks_trace, issued_bind.
  apply list_bind_ext; [|done]. intros c. apply issued_blockEvents.
Qed.

Lemma filter_chain_bind (g : Chain → list Request) (c : Chain)
    (cs : list Chain) :
  (∀ c', Forall (λ r, request_chain r = c') (g c')) →
  NoDup cs →
  filter (λ r, request_chain r = c) (cs ≫= g)
  = if decide (c ∈ cs) then g c else [].
Proof.
  intros Hg. induction 1 as [|c0 cs Hc0 _ IH]; [done|].
  rewrite bind_cons, filter_app, IH.
  destruct (decide (c0 = c)) as [-> | Hne].
  - rewrite filter_all by apply Hg.
    destruct (decide (c ∈ cs)) as [|_]; [done|].
    destruct (decide (c ∈ c :: cs)) as [_|Hn]; [apply app_nil_r|].
    destruct Hn. apply list_elem_of_here.
  - rewrite filter_none.
    2: { eapply Forall_impl; [apply Hg|]. intros r Hr. congruence. }
    cbn [app].
    destruct (decide (c ∈ cs)) as [Hin | Hnin];
      destruct (decide (c ∈ c0 :: cs)) as [Hin' | Hnin']; try done.
    + destruct Hnin'. by right.
    + apply elem_of_cons in Hin' as [?|?]; congruence.
Qed.

Lemma NoDup_ran (env : Providers) (u : string)
    (l : list TokenContractAddress) :
  NoDup (ran env supportedChains u l).
Proof.
  assert (H : NoDup supportedChains).
  { unfold supportedChains.
    repeat (constructor;
            [rewrite ?elem_of_cons, ?elem_of_nil; intuition discriminate|]).
    constructor. }
  destruct (ran_prefix env supportedChains u l) as [k Hk].
  rewrite Hk in H. by apply NoDup_app in H as (H & _ & _).
Qed.

(** The requests that go to a chain are those of its batch when the chain
    is fetched, and none otherwise. *)
Lemma sent_to_ran (env : Providers) (u : string)
    (l : list TokenContractAddress) (c : Chain) :
  sent_to c (trace (getTokenBalance env u l))
  = if decide (c ∈ ran env supportedChains u l) then
      match tokensOf c l with
      | [] => []
      | tokens => requests c u tokens
      end
    else [].
Proof.
  unfold sent_to. rewrite issued_getTokenBalance.
  apply (filter_chain_bind
           (λ c, match tokensOf c l with
                 | [] => []
                 | tokens => requests c u tokens
                 end)); [|apply NoDup_ran].
  intros c'. destruct (tokensOf c' l); [constructor | apply requests_chain].
Qed.

(** C8: for every token reference sequence, the batch of a chain holds the
    input entries of that chain in their input order (it is a subsequence of
    the input, and no entry of the chain is lost), and it is this batch that
    [getTokenBalance] sends: the requests that go to a chain are either none
    or the requests of the batch of that chain, in order; they are the
    requests of the batch whenever the chain has entries and the chains
    before it have answered, so whenever the call returns.  A chain absent
    from the input triggers no provider call for that chain, and the empty
    input yields the empty output with no provider call at all. *)
Theorem getTokenBalance_routes_by_chain (env : Providers) (u : UserAddress)
    (l : list TokenContractAddress) (c : Chain) :
  (λ a, {| address := a; chain := c |}) <$> tokensOf c l `sublist_of` l ∧
  (∀ x, chain x = c →
        occurrences x ((λ a, {| address := a; chain := c |}) <$> tokensOf c l)
        = occurrences x l) ∧
  (sent_to c (trace (getTokenBalance env u l)) = [] ∨
   tokensOf c l ≠ [] ∧
   sent_to c (trace (getTokenBalance env u l)) = requests c u (tokensOf c l)) ∧
  ((∀ c', (rank c' < rank c)%nat → chain_answers env c' u l) →
   tokensOf c l ≠ [] →
   sent_to c (trace (getTokenBalance env u l)) = requests c u (tokensOf c l)) ∧
  (isOk (run_result (getTokenBalance env u l)) = true →
   tokensOf c l ≠ [] →
   sent_to c (trace (getTokenBalance env u l)) = requests c u (tokensOf c l)) ∧
  (Forall (λ x, chain x ≠ c) l →
   ∀ r, Issued r ∈ trace (getTokenBalance env u l) → request_chain r ≠ c) ∧
  getTokenBalance env u [] = (Ok [], []).
Proof.
  rewrite tokensOf_retagged. split; [apply sublist_filter|].
  split; [by intros x Hx; apply occurrences_filter|].
  rewrite sent_to_ran.
  split; [|split; [|split; [|split; [|reflexivity]]]].
  - destruct (decide (c ∈ ran env supportedChains u l)); [|by left].
    destruct (tokensOf c l) as [|a toks]; [by left | by right].
  - intros Hbefore Hne. rewrite decide_True by (by apply ran_iff).
    by destruct (tokensOf c l).
  - intros Hok Hne. rewrite (ran_returns env u l Hok).
    rewrite decide_True
      by (destruct c; unfold supportedChains; repeat constructor).
    by destruct (tokensOf c l).
  - intros Habsent r Hr Hc.
    rewrite getTokenBalance_blocks in Hr. apply blocks_issued in Hr.
    apply Hr. rewrite Hc. unfold tokensOf.
    rewrite filter_none; [done|]. eapply Forall_impl; [exact Habsent|].
    intros x Hx. exact Hx.
Qed.

(** Two Avalanche references around an Ethereum one: the Avalanche provider
    is asked about ["0xC"] and then ["0xB"], as in the input; Arbitrum, which
    the input does not name, is not asked anything. *)
Lemma getTokenBalance_routes_by_chain_witness :
  sent_to Avalanche
    (trace
       (getTokenBalance (sample (10 ^ 18)) "0xUser"
          [ {| address := "0xC"; chain := Avalanche |};
            {| address := "0xA"; chain := Ethereum |};
            {| address := "0xB"; chain := Avalanche |} ]))
  = [ BalanceOf "0xC" "0xUser"; Decimals "0xC";
      BalanceOf "0xB" "0xUser"; Decimals "0xB" ] ∧
  (∀ r,
     Issued r ∈ trace
       (getTokenBalance (sample (10 ^ 18)) "0xUser"
          [ {| address := "0xC"; chain := Avalanche |};
            {| address := "0xA"; chain := Ethereum |};
            {| address := "0xB"; chain := Avalanche |} ]) →
     request_chain r ≠ Arbitrum).
Proof.
  split.
  - destruct (getTokenBalance_routes_by_chain (sample (10 ^ 18)) "0xUser"
                [ {| address := "0xC"; chain := Avalanche |};
                  {| address := "0xA"; chain := Ethereum |};
                  {| address := "0xB"; chain := Avalanche |} ] Avalanche)
      as (_ & _ & _ & _ & Hsent & _).
    apply Hsent; [reflexivity | discriminate].
  - destruct (getTokenBalance_routes_by_chain (sample (10 ^ 18)) "0xUser"
                [ {| address := "0xC"; chain := Avalanche |};
                  {| address := "0xA"; chain := Ethereum |};
                  {| address := "0xB"; chain := Avalanche |} ] Arbitrum)
      as (_ & _ & _ & _ & _ & Habsent & _).
    apply Habsent. repeat constructor; discriminate.
Defined.
